(** * go-dd-service-base: the visibility package

    A shallow embedding of the instrumentation core of
    github.com/Cyberax/go-dd-service-base (package [visibility]): the
    stack capturer, the metric accumulator, the instrumented execution
    wrapper, the process registry and the multi-value context.

    Conventions of the embedding:
    - Go [string] is [string] (a sequence of bytes), Go [int] is [Z],
      [float64] is the primitive binary64 [float];
    - a Go [map] is a [gmap]; a pointer to a shared object is an address
      into an explicit store;
    - a function that may panic returns a [Result]; a function with
      effects threads its state explicitly;
    - a value behind [interface{}] carries its kind and what its
      methods [String()] and [Error()] do when they are called. *)

From Stdlib Require Import ZArith String Ascii List Bool Lia DecimalString.
From Stdlib Require Import Uint63 Floats.
From stdpp Require Import gmap strings list sorting.

Open Scope string_scope.
Open Scope Z_scope.

(** ** Go values behind [interface{}] *)

(** What a method [String()] or [Error()] of a dynamic value does when
    it is called: the type has no such method; the call returns a
    string; or the call fails with a run-time error (a nil receiver is
    dereferenced, an index is out of range).  A failing method is given
    by the message of its run-time error and by what package fmt, which
    recovers from such a failure, then prints for the value. *)
Inductive method : Type :=
  | NoMethod
  | Returns (s : string)
  | Raises (e : string) (shown : string).

(** The kinds of [reflect] as far as the code depends on them:
    [reflect.String] (a named string type), the other kinds that can be
    compared and hashed (pointers, structs of such fields, ...), and the
    kinds that cannot be hashed (slices, maps, funcs, and the structs
    and arrays that hold one). *)
Inductive kind : Type :=
  | KString
  | KComparable
  | KUnhashable.

(** The dynamic values that travel as [interface{}]: panic payloads,
    context keys and context values.  A value of any type other than
    [string], [int] and [bool] records the name of its type, its kind,
    its methods [String()] and [Error()] (the type implements
    [fmt.Stringer], resp. [error], when it has them), and [repr]: the
    underlying string for the kind [reflect.String], and for the other
    kinds what [%v] prints from the fields. *)
Inductive value : Type :=
  | VNil
  | VString (s : string)
  | VInt (n : Z)
  | VBool (b : bool)
  | VObject (typ : string) (k : kind) (stringer : method) (err : method)
            (repr : string).

Global Instance method_eq_dec : EqDecision method.
Proof. solve_decision. Defined.

Global Instance kind_eq_dec : EqDecision kind.
Proof. solve_decision. Defined.

Global Instance value_eq_dec : EqDecision value.
Proof. solve_decision. Defined.

Definition method_encode (m : method) : unit + string + string * string :=
  match m with
  | NoMethod => inl (inl tt)
  | Returns s => inl (inr s)
  | Raises e shown => inr (e, shown)
  end.

Definition method_decode (x : unit + string + string * string) : method :=
  match x with
  | inl (inl _) => NoMethod
  | inl (inr s) => Returns s
  | inr (e, shown) => Raises e shown
  end.

Global Instance method_countable : Countable method.
Proof.
  apply (inj_countable' method_encode method_decode).
  intros []; reflexivity.
Defined.

Definition kind_encode (k : kind) : nat :=
  match k with KString => 0 | KComparable => 1 | KUnhashable => 2 end%nat.

Definition kind_decode (n : nat) : kind :=
  match n with O => KString | S O => KComparable | _ => KUnhashable end.

Global Instance kind_countable : Countable kind.
Proof.
  apply (inj_countable' kind_encode kind_decode).
  intros []; reflexivity.
Defined.

Definition value_encode (v : value)
  : unit + string + Z + bool + (string * kind * method * method * string) :=
  match v with
  | VNil => inl (inl (inl (inl tt)))
  | VString s => inl (inl (inl (inr s)))
  | VInt n => inl (inl (inr n))
  | VBool b => inl (inr b)
  | VObject t k s e r => inr (t, k, s, e, r)
  end.

Definition value_decode
  (x : unit + string + Z + bool + (string * kind * method * method * string))
  : value :=
  match x with
  | inl (inl (inl (inl _))) => VNil
  | inl (inl (inl (inr s))) => VString s
  | inl (inl (inr n)) => VInt n
  | inl (inr b) => VBool b
  | inr (t, k, s, e, r) => VObject t k s e r
  end.

Global Instance value_countable : Countable value.
Proof.
  apply (inj_countable' value_encode value_decode).
  intros []; reflexivity.
Defined.

(** [msg.(fmt.Stringer)] and [msg.(error)]: the type assertions, giving
    the method when the assertion succeeds. *)
Definition as_Stringer (v : value) : method :=
  match v with
  | VObject _ _ s _ _ => s
  | _ => NoMethod
  end.

Definition as_error (v : value) : method :=
  match v with
  | VObject _ _ _ e _ => e
  | _ => NoMethod
  end.

(** [reflect.ValueOf(v).String()]: the underlying string for a value of
    kind [reflect.String], of type [string] or of a named string type,
    and ["<T Value>"] for a value of any other type [T]. *)
Definition reflect_String (v : value) : string :=
  match v with
  | VNil => "<invalid Value>"
  | VString s => s
  | VInt _ => "<int Value>"
  | VBool _ => "<bool Value>"
  | VObject _ KString _ _ r => r
  | VObject t _ _ _ _ => "<" ++ t ++ " Value>"
  end.

(** Whether a value can be a map key: [hash of unhashable type]
    otherwise. *)
Definition hashable (v : value) : bool :=
  match v with
  | VObject _ KUnhashable _ _ _ => false
  | _ => true
  end.

Definition type_name (v : value) : string :=
  match v with
  | VNil => "nil"
  | VString _ => "string"
  | VInt _ => "int"
  | VBool _ => "bool"
  | VObject t _ _ _ _ => t
  end.

(** The panic value of a run-time error: [runtime.errorString], a named
    string type whose [Error()] puts ["runtime error: "] in front. *)
Definition runtime_error (e : string) : value :=
  VObject "runtime.errorString" KString NoMethod
    (Returns ("runtime error: " ++ e)) e.

(** [strconv.Itoa]. *)
Definition Itoa (n : Z) : string := NilZero.string_of_int (Z.to_int n).

(** [fmt.Sprintf("%v", v)]: [Error()] wins over [String()], as in
    package fmt, which recovers from a method that fails and prints a
    note in its place. *)
Definition Sprintf_v (v : value) : string :=
  match v with
  | VNil => "<nil>"
  | VString s => s
  | VInt n => Itoa n
  | VBool b => if b then "true" else "false"
  | VObject _ _ s e r =>
      match e with
      | Returns m => m
      | Raises _ shown => shown
      | NoMethod =>
          match s with
          | Returns m => m
          | Raises _ shown => shown
          | NoMethod => r
          end
      end
  end.

(** The outcome of a call that may panic. *)
Inductive Result (A : Type) : Type :=
  | Ok (a : A)
  | Panic (p : value).
Arguments Ok {A} a.
Arguments Panic {A} p.

(** ** Package strings, on single-byte separators *)

Module strings.

(** [strings.Count(s, sep)] for a one-byte [sep]. *)
Fixpoint Count (s : string) (sep : ascii) : Z :=
  match s with
  | EmptyString => 0
  | String c s' => (if Ascii.eqb c sep then 1 else 0) + Count s' sep
  end.

(** [strings.Index(s, sep)]: first occurrence, or -1. *)
Fixpoint Index (s : string) (sep : ascii) : Z :=
  match s with
  | EmptyString => -1
  | String c s' =>
      if Ascii.eqb c sep then 0
      else let r := Index s' sep in if Z.eqb r (-1) then -1 else r + 1
  end.

(** [strings.LastIndex(s, sep)]: last occurrence, or -1. *)
Fixpoint LastIndex (s : string) (sep : ascii) : Z :=
  match s with
  | EmptyString => -1
  | String c s' =>
      let r := LastIndex s' sep in
      if Z.eqb r (-1) then (if Ascii.eqb c sep then 0 else -1) else r + 1
  end.

(** [strings.HasPrefix(s, prefix)]. *)
Definition HasPrefix (s p : string) : bool := String.prefix p s.

Fixpoint take (n : nat) (s : string) : string :=
  match n, s with
  | S n', String c s' => String c (take n' s')
  | _, _ => EmptyString
  end.

Fixpoint drop (n : nat) (s : string) : string :=
  match n, s with
  | S n', String _ s' => drop n' s'
  | _, _ => s
  end.

(** The slice expressions [s[:i]] and [s[i:]], for [0 <= i <= len(s)]
    (every use below is in range, see [strip_in_range]). *)
Definition slice_to (s : string) (i : Z) : string := take (Z.to_nat i) s.
Definition slice_from (s : string) (i : Z) : string := drop (Z.to_nat i) s.

Definition len (s : string) : Z := Z.of_nat (String.length s).

(** [strings.Join(elems, sep)]. *)
Definition Join (elems : list string) (sep : string) : string :=
  String.concat sep elems.

End strings.

(** ** The stack capturer (log_helpers.go) *)

(** [runtime.Frame], the fields the renderer reads. *)
Record Frame : Type := mkFrame {
  File : string;
  Line : Z;
  Function : string
}.

Record StackElement : Type := mkStackElement {
  Fl : string;
  Fn : string
}.

(** A [ShortenedStackTrace].  [stack] holds the frames that
    [runtime.CallersFrames] yields for the captured program counters,
    innermost first. *)
Record ShortenedStackTrace : Type := mkShortenedStackTrace {
  skipToFirstPanic : bool;
  stack : list Frame;
  msg : string
}.

(** A method that the type has is called: it returns its string, or
    its run-time error is the panic that leaves [convertPanicMsg]. *)
Definition convertPanicMsg (m : value) : Result string :=
  match m with
  | VNil => Ok "recovered from panic"
  | _ =>
      match as_Stringer m with
      | Returns s => Ok s
      | Raises e _ => Panic (runtime_error e)
      | NoMethod =>
          match as_error m with
          | Returns e => Ok e
          | Raises e _ => Panic (runtime_error e)
          | NoMethod => Ok (reflect_String m)
          end
      end
  end.

(** The case order of the specification: Stringer, then error, then the
    nil payload, then reflection. *)
Definition convertPanicMsg_spec (m : value) : Result string :=
  match as_Stringer m with
  | Returns s => Ok s
  | Raises e _ => Panic (runtime_error e)
  | NoMethod =>
      match as_error m with
      | Returns e => Ok e
      | Raises e _ => Panic (runtime_error e)
      | NoMethod =>
          match m with
          | VNil => Ok "recovered from panic"
          | _ => Ok (reflect_String m)
          end
      end
  end.

(** [runtime.Callers(skip, s)] with [s] of length 40: at most 40 frames
    after the [skip] innermost ones of the running goroutine's stack. *)
Definition runtime_Callers (skip : Z) (goroutine : list Frame) : list Frame :=
  firstn 40 (skipn (Z.to_nat skip) goroutine).

Definition NewShortenedStackTrace (skipFrames : Z) (skipPanic : bool)
    (m : value) (goroutine : list Frame) : Result ShortenedStackTrace :=
  let s := runtime_Callers skipFrames goroutine in
  match convertPanicMsg m with
  | Ok text => Ok {| skipToFirstPanic := skipPanic; stack := s; msg := text |}
  | Panic p => Panic p
  end.

(** The loop of [parseFrame]: [n] more rounds of
    [i = strings.LastIndex(path[:i], "/")], leaving at -1. *)
Fixpoint strip (n : nat) (path : string) (i : Z) : Z :=
  match n with
  | O => i
  | S n' =>
      let i' := strings.LastIndex (strings.slice_to path i) "/" in
      if Z.eqb i' (-1) then -1 else strip n' path i'
  end.

Definition parseFrame (frame : Frame) : string * Z * string :=
  let path := File frame in
  let line := Line frame in
  let label := Function frame in
  let i := strip (Z.to_nat (strings.Count label "/" + 2)) path (strings.len path) in
  let path := strings.slice_from path (i + 1) in
  let label := strings.slice_from label (strings.LastIndex label "/" + 1) in
  let label := strings.slice_from label (strings.Index label "." + 1) in
  (path, line, label).

(** The frames a [for frame, more := frames.Next(); more; ...] loop
    visits: [Next] reports [more = false] together with the last frame,
    so the loop body never sees it. *)
Definition visited (frames : list Frame) : list Frame := removelast frames.

(** The test both loops apply to a parsed frame: [runtime.gopanic]. *)
Definition is_gopanic (frame : Frame) : bool :=
  let '(path, _, label) := parseFrame frame in
  strings.HasPrefix path "runtime/panic" && String.eqb label "gopanic".

Fixpoint countPanics_loop (frames : list Frame) (panics : Z) : Z :=
  match frames with
  | [] => panics
  | frame :: rest =>
      if is_gopanic frame then countPanics_loop rest (panics + 1)
      else countPanics_loop rest panics
  end.

Definition countPanics (s : ShortenedStackTrace) : Z :=
  countPanics_loop (visited (stack s)) 0.

Definition element_of (frame : Frame) : StackElement :=
  let '(path, line, label) := parseFrame frame in
  {| Fl := path ++ ":" ++ Itoa line; Fn := label |}.

Definition line_of (frame : Frame) : string :=
  let '(path, line, label) := parseFrame frame in
  path ++ ":" ++ Itoa line ++ " " ++ label ++ String "010" "".

Fixpoint JSONStack_loop (frames : list Frame) (panicsToSkip : Z)
    (stackElements : list StackElement) : list StackElement :=
  match frames with
  | [] => stackElements
  | frame :: rest =>
      if (0 <? panicsToSkip)%Z && is_gopanic frame
      then JSONStack_loop rest (panicsToSkip - 1) stackElements
      else if (0 <? panicsToSkip)%Z
      then JSONStack_loop rest panicsToSkip stackElements
      else JSONStack_loop rest panicsToSkip (stackElements ++ [element_of frame])
  end.

Definition JSONStack (s : ShortenedStackTrace) : list StackElement :=
  let panicsToSkip := if skipToFirstPanic s then countPanics s else 0 in
  JSONStack_loop (visited (stack s)) panicsToSkip [].

Fixpoint StringStack_loop (frames : list Frame) (panicsToSkip : Z)
    (res : string) : string :=
  match frames with
  | [] => res
  | frame :: rest =>
      if (0 <? panicsToSkip)%Z && is_gopanic frame
      then StringStack_loop rest (panicsToSkip - 1) res
      else if (0 <? panicsToSkip)%Z
      then StringStack_loop rest panicsToSkip res
      else StringStack_loop rest panicsToSkip (res ++ line_of frame)
  end.

Definition StringStack (s : ShortenedStackTrace) : string :=
  let panicsToSkip := if skipToFirstPanic s then countPanics s else 0 in
  StringStack_loop (visited (stack s)) panicsToSkip "".

(** ** The metric accumulator (metrics.go) *)

(** [cloudwatch.StandardUnit] is a string type; these are the constants
    of the AWS SDK that [Normalize] switches on. *)
Definition StandardUnit : Type := string.

Definition StandardUnitSeconds : StandardUnit := "Seconds".
Definition StandardUnitMicroseconds : StandardUnit := "Microseconds".
Definition StandardUnitMilliseconds : StandardUnit := "Milliseconds".
Definition StandardUnitBytes : StandardUnit := "Bytes".
Definition StandardUnitKilobytes : StandardUnit := "Kilobytes".
Definition StandardUnitMegabytes : StandardUnit := "Megabytes".
Definition StandardUnitGigabytes : StandardUnit := "Gigabytes".
Definition StandardUnitTerabytes : StandardUnit := "Terabytes".
Definition StandardUnitBits : StandardUnit := "Bits".
Definition StandardUnitKilobits : StandardUnit := "Kilobits".
Definition StandardUnitMegabits : StandardUnit := "Megabits".
Definition StandardUnitGigabits : StandardUnit := "Gigabits".
Definition StandardUnitTerabits : StandardUnit := "Terabits".
Definition StandardUnitPercent : StandardUnit := "Percent".
Definition StandardUnitCount : StandardUnit := "Count".
Definition StandardUnitBytesSecond : StandardUnit := "Bytes/Second".
Definition StandardUnitKilobytesSecond : StandardUnit := "Kilobytes/Second".
Definition StandardUnitMegabytesSecond : StandardUnit := "Megabytes/Second".
Definition StandardUnitGigabytesSecond : StandardUnit := "Gigabytes/Second".
Definition StandardUnitTerabytesSecond : StandardUnit := "Terabytes/Second".
Definition StandardUnitBitsSecond : StandardUnit := "Bits/Second".
Definition StandardUnitKilobitsSecond : StandardUnit := "Kilobits/Second".
Definition StandardUnitMegabitsSecond : StandardUnit := "Megabits/Second".
Definition StandardUnitGigabitsSecond : StandardUnit := "Gigabits/Second".
Definition StandardUnitTerabitsSecond : StandardUnit := "Terabits/Second".
Definition StandardUnitCountSecond : StandardUnit := "Count/Second".
Definition StandardUnitNone : StandardUnit := "None".

(** [time.Time] and [time.Duration], both in nanoseconds. *)
Definition Time : Type := Z.
Definition Duration : Type := Z.

Record MetricEntry : Type := mkMetricEntry {
  Val : float;
  Unit : StandardUnit;
  Timestamp : Time
}.

(** [MetricsContext], without its mutex (the embedding is sequential)
    and without the [sink] and [span] fields, which nothing assigns. *)
Record MetricsContext : Type := mkMetricsContext {
  OpName : string;
  Metrics : gmap string MetricEntry
}.

(** [case u: return r] of a Go [switch] on a unit. *)
Notation "'case' u 'of' e 'return' r 'otherwise' k" :=
  (if String.eqb (Unit e) u then r else k)
  (at level 10, u at level 9, e at level 9, r at level 99, k at level 200,
   only parsing).

Definition Normalize (e : MetricEntry) : float * StandardUnit :=
  case StandardUnitSeconds of e return
    ((Val e * 1e6)%float, StandardUnitMicroseconds) otherwise
  case StandardUnitMicroseconds of e return
    (Val e, StandardUnitMicroseconds) otherwise
  case StandardUnitMilliseconds of e return
    ((Val e * 1e3)%float, StandardUnitMicroseconds) otherwise
  case StandardUnitBytes of e return
    (Val e, StandardUnitBytes) otherwise
  case StandardUnitKilobytes of e return
    ((Val e * 1024)%float, StandardUnitBytes) otherwise
  case StandardUnitMegabytes of e return
    ((Val e * 1024 * 1024)%float, StandardUnitBytes) otherwise
  case StandardUnitGigabytes of e return
    ((Val e * 1024 * 1024 * 1024)%float, StandardUnitBytes) otherwise
  case StandardUnitTerabytes of e return
    ((Val e * 1024 * 1024 * 1024 * 1024)%float, StandardUnitBytes) otherwise
  case StandardUnitBits of e return
    (Val e, StandardUnitBits) otherwise
  case StandardUnitKilobits of e return
    ((Val e * 1024)%float, StandardUnitBits) otherwise
  case StandardUnitMegabits of e return
    ((Val e * 1024 * 1024)%float, StandardUnitBits) otherwise
  case StandardUnitGigabits of e return
    ((Val e * 1024 * 1024 * 1024)%float, StandardUnitBits) otherwise
  case StandardUnitTerabits of e return
    ((Val e * 1024 * 1024 * 1024 * 1024)%float, StandardUnitBits) otherwise
  case StandardUnitPercent of e return
    (Val e, StandardUnitPercent) otherwise
  case StandardUnitCount of e return
    (Val e, StandardUnitCount) otherwise
  case StandardUnitBytesSecond of e return
    (Val e, StandardUnitBytesSecond) otherwise
  case StandardUnitKilobytesSecond of e return
    ((Val e * 1024)%float, StandardUnitBytesSecond) otherwise
  case StandardUnitMegabytesSecond of e return
    ((Val e * 1024 * 1024)%float, StandardUnitBytesSecond) otherwise
  case StandardUnitGigabytesSecond of e return
    ((Val e * 1024 * 1024 * 1024)%float, StandardUnitBytesSecond) otherwise
  case StandardUnitTerabytesSecond of e return
    ((Val e * 1024 * 1024 * 1024 * 1024)%float, StandardUnitBytesSecond) otherwise
  case StandardUnitBitsSecond of e return
    (Val e, StandardUnitBitsSecond) otherwise
  case StandardUnitKilobitsSecond of e return
    ((Val e * 1024)%float, StandardUnitBitsSecond) otherwise
  case StandardUnitMegabitsSecond of e return
    ((Val e * 1024 * 1024)%float, StandardUnitBitsSecond) otherwise
  case StandardUnitGigabitsSecond of e return
    ((Val e * 1024 * 1024 * 1024)%float, StandardUnitBitsSecond) otherwise
  case StandardUnitTerabitsSecond of e return
    ((Val e * 1024 * 1024 * 1024 * 1024)%float, StandardUnitBitsSecond) otherwise
  case StandardUnitCountSecond of e return
    (Val e, StandardUnitCountSecond) otherwise
  case StandardUnitNone of e return
    (Val e, StandardUnitNone) otherwise
  (Val e, StandardUnitNone).

(** Modelled from the spec: [utils.PanicIfF] (package utils is not among
    the sources).  The specification calls a unit mismatch and a missing
    metrics scope fatal errors that are raised immediately: the call
    panics with its message exactly when the condition holds. *)
Definition PanicIfF (cond : bool) (message : string) : Result unit :=
  if cond then Panic (VString message) else Ok tt.

(** [MetricsContext{OpName: opName, Metrics: map[string]*MetricEntry{}}]. *)
Definition NewMetricsContext (opName : string) : MetricsContext :=
  {| OpName := opName; Metrics := ∅ |}.

Definition Reset (m : MetricsContext) : MetricsContext :=
  {| OpName := OpName m; Metrics := ∅ |}.

Definition GetMetric (m : MetricsContext) (name : string) : float * StandardUnit :=
  match Metrics m !! name with
  | None => (0%float, StandardUnitNone)
  | Some curVal => (Val curVal, Unit curVal)
  end.

Definition GetMetricVal (m : MetricsContext) (name : string) : float :=
  fst (GetMetric m name).

(** [AddMetric]; [now] is what [time.Now()] reads.  The entries are
    reached only through the map, so [curVal.Val += val] is an update of
    the map. *)
Definition AddMetric (m : MetricsContext) (name : string) (val : float)
    (unit : StandardUnit) (now : Time) : Result MetricsContext :=
  match Metrics m !! name with
  | None =>
      Ok {| OpName := OpName m;
            Metrics := <[name := {| Val := val; Unit := unit; Timestamp := now |}]>
                         (Metrics m) |}
  | Some curVal =>
      match PanicIfF (negb (String.eqb (Unit curVal) unit))
              ("inconsistent unit assignment, was " ++ Unit curVal
               ++ " want " ++ unit) with
      | Panic p => Panic p
      | Ok _ =>
          Ok {| OpName := OpName m;
                Metrics := <[name := {| Val := (Val curVal + val)%float;
                                        Unit := Unit curVal;
                                        Timestamp := Timestamp curVal |}]>
                             (Metrics m) |}
      end
  end.

Definition SetMetric (m : MetricsContext) (name : string) (val : float)
    (unit : StandardUnit) (now : Time) : MetricsContext :=
  {| OpName := OpName m;
     Metrics := <[name := {| Val := val; Unit := unit; Timestamp := now |}]>
                  (Metrics m) |}.

Definition AddCount (m : MetricsContext) (name : string) (val : float)
    (now : Time) : Result MetricsContext :=
  AddMetric m name val StandardUnitCount now.

Definition SetCount (m : MetricsContext) (name : string) (val : float)
    (now : Time) : MetricsContext :=
  SetMetric m name val StandardUnitCount now.

(** [float64(n)] for an [int64] (round to nearest). *)
Definition float_of_Z (n : Z) : float :=
  if n <? 0 then (- of_uint63 (Uint63.of_Z (- n)))%float
  else of_uint63 (Uint63.of_Z n).

(** [Duration.Seconds()]: whole seconds plus the fraction. *)
Definition Seconds (d : Duration) : float :=
  (float_of_Z (Z.quot d 1000000000) + float_of_Z (Z.rem d 1000000000) / 1e9)%float.

Definition AddDuration (m : MetricsContext) (name : string) (d : Duration)
    (now : Time) : Result MetricsContext :=
  AddMetric m name (Seconds d) StandardUnitSeconds now.

Definition SetDuration (m : MetricsContext) (name : string) (d : Duration)
    (now : Time) : MetricsContext :=
  SetMetric m name (Seconds d) StandardUnitSeconds now.

(** ** Package strings: [Title] and [ReplaceAll] on single bytes *)

Module strcase.

Definition between (lo c hi : ascii) : bool :=
  (nat_of_ascii lo <=? nat_of_ascii c)%nat && (nat_of_ascii c <=? nat_of_ascii hi)%nat.

Definition isLower (c : ascii) : bool := between "a" c "z".

(** Letters, digits and the underscore do not separate words. *)
Definition isSeparator (c : ascii) : bool :=
  negb (between "a" c "z" || between "A" c "Z" || between "0" c "9"
        || Ascii.eqb c "_").

Definition toUpper (c : ascii) : ascii :=
  if isLower c then ascii_of_nat (nat_of_ascii c - 32) else c.

Fixpoint Title_from (prev : ascii) (s : string) : string :=
  match s with
  | EmptyString => EmptyString
  | String c s' =>
      String (if isSeparator prev then toUpper c else c) (Title_from c s')
  end.

(** [strings.Title]: the first letter of every word in upper case. *)
Definition Title (s : string) : string := Title_from " " s.

(** [strings.ReplaceAll(s, old, new)] for a one-byte [old]. *)
Fixpoint ReplaceAll (s : string) (old : ascii) (new : string) : string :=
  match s with
  | EmptyString => EmptyString
  | String c s' =>
      if Ascii.eqb c old then new ++ ReplaceAll s' old new
      else String c (ReplaceAll s' old new)
  end.

End strcase.

(** What the code takes from package utils besides [PanicIfF]:
    [ToSnakeCase] is not among the sources and is left open. *)
Class Utils : Type := {
  ToSnakeCase : string → ascii → string
}.

Definition normalizeUnitName `{Utils} (unit : StandardUnit) : string :=
  let normUnitName := strcase.Title unit in
  let normUnitName := strcase.ReplaceAll normUnitName "/" "Per" in
  ToSnakeCase normUnitName "_".

(** ** The world of an instrumented call *)

(** A zap logger, as far as [Named] and [With] shape it. *)
Record Logger : Type := mkLogger {
  logger_name : string;
  logger_fields : list (string * string)
}.

Definition Named (l : Logger) (name : string) : Logger :=
  if String.eqb name "" then l
  else {| logger_name := if String.eqb (logger_name l) "" then name
                         else logger_name l ++ "." ++ name;
          logger_fields := logger_fields l |}.

Definition With (l : Logger) (fields : list (string * string)) : Logger :=
  {| logger_name := logger_name l; logger_fields := logger_fields l ++ fields |}.

(** A span handle of the tracer. *)
Record Span : Type := mkSpan {
  SpanID : Z;
  TraceID : Z
}.

(** [statsd.ClientInterface]: the no-op client or a real sink. *)
Inductive StatsdClient : Type :=
  | NoOpClient
  | Sink (id : nat).

Inductive TagValue : Type :=
  | TagString (s : string)
  | TagFloat (f : float).

(** The calls made on the collaborators (tracer, metrics sink, logger),
    in the order they are made.  [Finish span VNil] is [span.Finish()],
    [Finish span err] is [span.Finish(tracer.WithError(err))]. *)
Inductive Event : Type :=
  | StartSpan (span : Span) (operation spanType : string)
  | SetTag (span : Span) (key : string) (v : TagValue)
  | SetOperationName (span : Span) (name : string)
  | Finish (span : Span) (err : value)
  | Distribution (sink : nat) (name : string) (v : float) (tags : list string)
                 (rate : float)
  | LogError (l : Logger) (message : string) (err : value).

(** A [context.Context], by the bindings this package stores in it.
    [metricsKey] holds the address of the accumulator (a
    [*MetricsContext]). *)
Record Context : Type := mkContext {
  loggerKey : option Logger;
  metricsKey : option nat;
  statsdKey : option StatsdClient;
  clientTypeKey : option string;
  activeSpan : option Span
}.

Definition Background : Context :=
  {| loggerKey := None; metricsKey := None; statsdKey := None;
     clientTypeKey := None; activeSpan := None |}.

(** What a call observes and changes: the wall clock, the call stack of
    the goroutine as [runtime.Callers(0, _)] would report it, the
    tracer's identifier supply, the accumulators behind their addresses
    and the calls made on the collaborators so far. *)
Record World : Type := mkWorld {
  now : Time;
  callers : list Frame;
  next_id : Z;
  next_addr : nat;
  heap : gmap nat MetricsContext;
  events : list Event
}.

(** A call that reads and changes the world and may panic.  A Go
    function returning [error] is an [M value], [VNil] being [nil]. *)
Definition M (A : Type) : Type := World → Result A * World.

Global Instance M_ret : MRet M := λ A a w, (Ok a, w).

Global Instance M_bind : MBind M := λ A B k m w,
  match m w with
  | (Ok a, w') => k a w'
  | (Panic p, w') => (Panic p, w')
  end.

Definition lift {A : Type} (r : Result A) : M A := λ w, (r, w).

(** [defer d(); body]: [d] runs when [body] returns or panics; a panic
    of [d] replaces the outcome of [body]. *)
Definition defer {A : Type} (d : M unit) (body : M A) : M A :=
  λ w, match body w with
       | (r, w') =>
           match d w' with
           | (Ok _, w'') => (r, w'')
           | (Panic q, w'') => (Panic q, w'')
           end
       end.

Definition emit (e : list Event) : M unit :=
  λ w, (Ok tt, {| now := now w; callers := callers w; next_id := next_id w;
                  next_addr := next_addr w; heap := heap w;
                  events := events w ++ e |}).

(** The accumulator behind a pointer. *)
Definition deref (a : nat) (w : World) : MetricsContext :=
  default (NewMetricsContext "") (heap w !! a).

Definition store (a : nat) (m : MetricsContext) (w : World) : World :=
  {| now := now w; callers := callers w; next_id := next_id w;
     next_addr := next_addr w; heap := <[a := m]> (heap w);
     events := events w |}.

Definition CL (ctx : Context) : Result Logger :=
  match loggerKey ctx with
  | None => Panic (VString "Trying to log from an un-imbued context")
  | Some l => Ok l
  end.

Definition ImbueContext (ctx : Context) (l : Logger) : Context :=
  {| loggerKey := Some l; metricsKey := metricsKey ctx;
     statsdKey := statsdKey ctx; clientTypeKey := clientTypeKey ctx;
     activeSpan := activeSpan ctx |}.

Definition MakeMetricContext (ctx : Context) (opName : string) : M Context :=
  λ w, let a := next_addr w in
       (Ok {| loggerKey := loggerKey ctx; metricsKey := Some a;
              statsdKey := statsdKey ctx; clientTypeKey := clientTypeKey ctx;
              activeSpan := activeSpan ctx |},
        {| now := now w; callers := callers w; next_id := next_id w;
           next_addr := S a; heap := <[a := NewMetricsContext opName]> (heap w);
           events := events w |}).

Definition GetMetricsFromContext (ctx : Context) : Result nat :=
  let '(res, ok) := match metricsKey ctx with
                    | Some a => (a, true)
                    | None => (O, false)
                    end in
  match PanicIfF (negb ok) "No metrics context attached" with
  | Panic p => Panic p
  | Ok _ => Ok res
  end.

(** [TryGetMetricsFromContext]: the pointer, or [nil] ([None]). *)
Definition TryGetMetricsFromContext (ctx : Context) : option nat :=
  let '(res, ok) := match metricsKey ctx with
                    | Some a => (Some a, true)
                    | None => (None, false)
                    end in
  if negb ok then None else res.

Definition ContextWithStatsd (ctx : Context) (sink : StatsdClient) : Context :=
  {| loggerKey := loggerKey ctx; metricsKey := metricsKey ctx;
     statsdKey := Some sink; clientTypeKey := clientTypeKey ctx;
     activeSpan := activeSpan ctx |}.

Definition GetStatsdFromContext (ctx : Context) : StatsdClient :=
  match statsdKey ctx with
  | None => NoOpClient
  | Some c => c
  end.

Definition ClientTypeTag : string := "client-type".
Definition ClientTypeNormal : string := "normal".

Definition ContextWithClientType (ctx : Context) (ct : string) : Context :=
  {| loggerKey := loggerKey ctx; metricsKey := metricsKey ctx;
     statsdKey := statsdKey ctx; clientTypeKey := Some ct;
     activeSpan := activeSpan ctx |}.

Definition GetClientTypeFromContext (ctx : Context) : string :=
  match clientTypeKey ctx with
  | None => ClientTypeNormal
  | Some ct => ct
  end.

(** The accumulator's operations through a pointer, reading the clock
    of the world. *)
Definition met_AddCount (met : nat) (name : string) (val : float) : M unit :=
  λ w, match AddCount (deref met w) name val (now w) with
       | Ok m' => (Ok tt, store met m' w)
       | Panic p => (Panic p, w)
       end.

Definition met_AddDuration (met : nat) (name : string) (d : Duration) : M unit :=
  λ w, match AddDuration (deref met w) name d (now w) with
       | Ok m' => (Ok tt, store met m' w)
       | Panic p => (Panic p, w)
       end.

Record TimeMeasurement : Type := mkTimeMeasurement {
  tm_parent : nat;
  tm_name : string;
  tm_start : Time
}.

Definition Benchmark (met : nat) (name : string) : M TimeMeasurement :=
  λ w, (Ok {| tm_parent := met; tm_name := name; tm_start := now w |}, w).

Definition Done (t : TimeMeasurement) : M unit :=
  λ w, met_AddDuration (tm_parent t) (tm_name t) (now w - tm_start t) w.

(** [for name, val := range m.Metrics]: Go leaves the order open,
    [map_to_list] is one order. *)
Definition CopyToSpan `{Utils} (met : nat) (span : Span) : M unit :=
  λ w, emit (flat_map
               (λ '(name, val),
                  let '(normVal, normUnit) := Normalize val in
                  SetTag span name (TagFloat normVal)
                  :: (if negb (String.eqb normUnit StandardUnitCount)
                      then [SetTag span (name ++ "_unit")
                                   (TagString (normalizeUnitName normUnit))]
                      else []))
               (map_to_list (Metrics (deref met w)))) w.

Definition client_Distribution (client : StatsdClient) (name : string)
    (v : float) (tags : list string) (rate : float) : list Event :=
  match client with
  | NoOpClient => []
  | Sink id => [Distribution id name v tags rate]
  end.

Definition CopyToStatsd `{Utils} (met : nat) (client : StatsdClient)
    (clientType : string) : M unit :=
  λ w, let m := deref met w in
       emit (flat_map
               (λ '(name, val),
                  let '(normVal, normUnit) := Normalize val in
                  let normUnitName := normalizeUnitName normUnit in
                  client_Distribution client (OpName m ++ "." ++ name) normVal
                    ["unit:" ++ normUnitName; "client-type:" ++ clientType] 1)
               (map_to_list (Metrics m))) w.

(** ** The recording sink (recording_sink.go) *)

(** A [statsd] client that keeps the last value and tags sent under
    each name. *)
Record RecordingSink : Type := mkRecordingSink {
  Distributions : gmap string float;
  Counts : gmap string Z;
  Tags : gmap string (list string)
}.

Definition NewRecordingSink : RecordingSink :=
  {| Distributions := ∅; Counts := ∅; Tags := ∅ |}.

Definition Clear (r : RecordingSink) : RecordingSink :=
  {| Distributions := ∅; Counts := ∅; Tags := ∅ |}.

Definition sink_Count (r : RecordingSink) (name : string) (v : Z)
    (tags : list string) : RecordingSink :=
  {| Distributions := Distributions r; Counts := <[name := v]> (Counts r);
     Tags := <[name := tags]> (Tags r) |}.

Definition sink_Distribution (r : RecordingSink) (name : string) (v : float)
    (tags : list string) : RecordingSink :=
  {| Distributions := <[name := v]> (Distributions r); Counts := Counts r;
     Tags := <[name := tags]> (Tags r) |}.

(** The sink [id] being a recording sink: what it holds after the calls
    made on it in a run. *)
Definition deliver (id : nat) (r : RecordingSink) (e : Event) : RecordingSink :=
  match e with
  | Distribution id' name v tags _ =>
      if decide (id' = id) then sink_Distribution r name v tags else r
  | _ => r
  end.

Definition replay (id : nat) (es : list Event) (r : RecordingSink) : RecordingSink :=
  fold_left (deliver id) es r.

(** ** The instrumented execution wrapper (runner.go) *)

Definition ext_ResourceName : string := "resource.name".
Definition ext_ErrorStack : string := "error.stack".

(** [fmt.Errorf(format, ...)] without [%w]: an error value carrying the
    formatted message. *)
Definition Errorf (message : string) : value :=
  VObject "*errors.errorString" KComparable NoMethod (Returns message)
    ("&{" ++ message ++ "}").

(** [tracer.StartSpanFromContext]: a fresh span, child of the active
    span of [ctx] when there is one, and the context that carries it. *)
Definition StartSpanFromContext (ctx : Context) (operation spanType : string)
    : M (Span * Context) :=
  λ w, let id := next_id w in
       let span := {| SpanID := id;
                      TraceID := match activeSpan ctx with
                                 | Some parent => TraceID parent
                                 | None => id
                                 end |} in
       (Ok (span, {| loggerKey := loggerKey ctx; metricsKey := metricsKey ctx;
                     statsdKey := statsdKey ctx;
                     clientTypeKey := clientTypeKey ctx;
                     activeSpan := Some span |}),
        {| now := now w; callers := callers w; next_id := id + 1;
           next_addr := next_addr w; heap := heap w;
           events := events w ++ [StartSpan span operation spanType] |}).

(** The deferred closure of [RunInstrumented], around the rest of the
    function.  [recover()] returns the payload of the panic under way,
    and [nil] when there is none or when the payload is [nil] (go.mod
    asks for Go 1.13); in both cases the panic, if any, stops there. *)
Definition recovering (span : Span) (body : M value) : M value :=
  λ w, match body w with
       | (Panic p, w') =>
           if decide (p ≠ VNil) then
             (stack ← lift (NewShortenedStackTrace 3 true (VString (Sprintf_v p))
                              (callers w'));
              _ ← emit [SetTag span ext_ErrorStack (TagString (StringStack stack));
                        SetTag span "panic" (TagString (Sprintf_v p));
                        Finish span (Errorf ("gopanic: " ++ Sprintf_v p))];
              lift (Panic p)) w'
           else
             (* [err] was never assigned *)
             (_ ← emit [Finish span VNil]; mret VNil) w'
       | (Ok err, w') =>
           (_ ← emit [Finish span err]; mret err) w'
       end.

Definition RunInstrumented `{Utils} (ctx : Context) (name : string)
    (fn : Context → M value) : M value :=
  logger ← lift (CL ctx);
  let statsd := GetStatsdFromContext ctx in
  let clientType := GetClientTypeFromContext ctx in
  '(span, ctx) ← StartSpanFromContext ctx name "background";
  _ ← emit [SetTag span ext_ResourceName (TagString name);
            SetTag span ClientTypeTag (TagString clientType);
            SetOperationName span name];
  recovering span (
    let logger := With (Named logger name)
                    [("dd.trace_id", Itoa (TraceID span));
                     ("dd.span_id", Itoa (SpanID span))] in
    let ctx := ImbueContext ctx logger in
    ctx ← MakeMetricContext ctx name;
    met ← lift (GetMetricsFromContext ctx);
    defer (CopyToStatsd met statsd clientType) (
    defer (CopyToSpan met span) (
      fn ctx))).

Definition InstrumentWithMetrics (ctx : Context) (fn : Context → M value)
    : M value :=
  met ← lift (GetMetricsFromContext ctx);
  _ ← met_AddCount met "Success" 0;
  _ ← met_AddCount met "Error" 0;
  _ ← met_AddCount met "Fault" 1;
  bench ← Benchmark met "Time";
  defer (Done bench) (
    err ← fn ctx;
    _ ← met_AddCount met "Fault" (-1);
    _ ← (if decide (err = VNil) then met_AddCount met "Success" 1
         else met_AddCount met "Error" 1);
    mret err).

(** ** The process registry (process_registry.go) *)

Module registry.

(** A [ProcessContext]; [Done] names its channel.  The back-pointer
    [Parent] is the registry the operations below are applied to. *)
Record ProcessContext : Type := mkProcessContext {
  Name : string;
  Done : nat
}.

Global Instance ProcessContext_eq_dec : EqDecision ProcessContext.
Proof. solve_decision. Defined.

(** A spawned goroutine: the process it runs for, the period when it
    is periodic, and the body. *)
Record Goroutine : Type := mkGoroutine {
  g_pc : ProcessContext;
  g_period : option Duration;
  g_proc : Context → M value
}.

(** The registry with what it shares with its goroutines: the
    [sync.WaitGroup] counter, whether the root context is cancelled,
    the channels made and closed so far, and the goroutines spawned,
    oldest first.  The mutex is left out (one call at a time). *)
Record ProcessRegistry : Type := mkProcessRegistry {
  numRunning : Z;
  rootCtx : Context;
  cancelled : bool;
  processes : gmap string ProcessContext;
  runningGroups : Z;
  next_chan : nat;
  closed : gset nat;
  goroutines : list Goroutine
}.

Definition NewProcessRegistry (parentCtx : Context) : ProcessRegistry :=
  {| numRunning := 0; rootCtx := parentCtx; cancelled := false;
     processes := ∅; runningGroups := 0; next_chan := O; closed := ∅;
     goroutines := [] |}.

Definition HasProcess (p : ProcessRegistry) (name : string) : bool :=
  match processes p !! name with
  | Some _ => true
  | None => false
  end.

(** [make(chan struct{})]. *)
Definition CreateProcessContext (p : ProcessRegistry) (name : string)
    : ProcessContext * ProcessRegistry :=
  ({| Name := name; Done := next_chan p |},
   {| numRunning := numRunning p; rootCtx := rootCtx p;
      cancelled := cancelled p; processes := processes p;
      runningGroups := runningGroups p; next_chan := S (next_chan p);
      closed := closed p; goroutines := goroutines p |}).

Definition go (g : Goroutine) (p : ProcessRegistry) : ProcessRegistry :=
  {| numRunning := numRunning p; rootCtx := rootCtx p;
     cancelled := cancelled p; processes := processes p;
     runningGroups := runningGroups p; next_chan := next_chan p;
     closed := closed p; goroutines := goroutines p ++ [g] |}.

Definition prepareRun (pc : ProcessContext) (p : ProcessRegistry)
    : bool * ProcessRegistry :=
  match processes p !! Name pc with
  | Some _ => (false, p)
  | None =>
      (true,
       {| numRunning := (numRunning p + 1) mod 2 ^ 64; rootCtx := rootCtx p;
          cancelled := cancelled p;
          processes := <[Name pc := pc]> (processes p);
          runningGroups := runningGroups p + 1; next_chan := next_chan p;
          closed := closed p; goroutines := goroutines p |})
  end.

Definition TryRun (pc : ProcessContext) (proc : Context → M value)
    (p : ProcessRegistry) : bool * ProcessRegistry :=
  let '(res, p) := prepareRun pc p in
  if negb res then (false, p)
  else (true, go {| g_pc := pc; g_period := None; g_proc := proc |} p).

Definition Run (pc : ProcessContext) (proc : Context → M value)
    (p : ProcessRegistry) : Result unit * ProcessRegistry :=
  let '(res, p) := TryRun pc proc p in
  if negb res
  then (Panic (VString ("There's already a process named: " ++ Name pc)), p)
  else (Ok tt, p).

(** [atomic.AddUint64(&p.numRunning, ^uint64(0))] and
    [p.runningGroups.Done()], which panics below zero. *)
Definition markDone (s : string) (p : ProcessRegistry)
    : Result unit * ProcessRegistry :=
  let p := {| numRunning := (numRunning p + (2 ^ 64 - 1)) mod 2 ^ 64;
              rootCtx := rootCtx p; cancelled := cancelled p;
              processes := delete s (processes p);
              runningGroups := runningGroups p - 1;
              next_chan := next_chan p; closed := closed p;
              goroutines := goroutines p |} in
  if runningGroups p <? 0
  then (Panic (VString "sync: negative WaitGroup counter"), p)
  else (Ok tt, p).

(** [close(ch)]. *)
Definition close (ch : nat) (p : ProcessRegistry)
    : Result unit * ProcessRegistry :=
  if decide (ch ∈ closed p)
  then (Panic (VString "close of closed channel"), p)
  else (Ok tt,
        {| numRunning := numRunning p; rootCtx := rootCtx p;
           cancelled := cancelled p; processes := processes p;
           runningGroups := runningGroups p; next_chan := next_chan p;
           closed := {[ch]} ∪ closed p; goroutines := goroutines p |}).

(** The end of a goroutine of [TryRun] or [RunPeriodicProcess], when
    its body is over: [defer pc.Parent.markDone(pc.Name)] runs, then
    [defer close(pc.Done)]; the latter runs also when the former
    panics. *)
Definition finish (pc : ProcessContext) (p : ProcessRegistry)
    : Result unit * ProcessRegistry :=
  let '(r, p) := markDone (Name pc) p in
  let '(r', p) := close (Done pc) p in
  (match r' with Panic q => Panic q | Ok _ => r end, p).

Definition RunPeriodicProcess (pc : ProcessContext) (period : Duration)
    (proc : Context → M value) (p : ProcessRegistry) : ProcessRegistry :=
  let '(_, p) := prepareRun pc p in
  go {| g_pc := pc; g_period := Some period; g_proc := proc |} p.

(** [p.cancel()], the first step of [Close]. *)
Definition cancel (p : ProcessRegistry) : ProcessRegistry :=
  {| numRunning := numRunning p; rootCtx := rootCtx p; cancelled := true;
     processes := processes p; runningGroups := runningGroups p;
     next_chan := next_chan p; closed := closed p;
     goroutines := goroutines p |}.

(** [GetWaitChannel]: the channel to wait on and whether it is
    already closed; for an unknown name a new, closed channel. *)
Definition GetWaitChannel (p : ProcessRegistry) (processName : string)
    : nat * ProcessRegistry :=
  match processes p !! processName with
  | None =>
      let ch := next_chan p in
      (ch,
       {| numRunning := numRunning p; rootCtx := rootCtx p;
          cancelled := cancelled p; processes := processes p;
          runningGroups := runningGroups p; next_chan := S ch;
          closed := {[ch]} ∪ closed p; goroutines := goroutines p |})
  | Some proc => (Done proc, p)
  end.

(** One round of a goroutine's body: the process runs under
    [RunInstrumented] with the root context and its own name, an
    error being logged and handed on. *)
Definition body `{Utils} (p : ProcessRegistry) (g : Goroutine) : M value :=
  RunInstrumented (rootCtx p) (Name (g_pc g))
    (λ xc, err ← g_proc g xc;
           (if decide (err ≠ VNil)
            then l ← lift (CL xc);
                 emit [LogError l "Async process returned an error" err]
            else mret tt);;
           mret err).

(** [LogRunning]: the registered names, sorted ([sort.Strings], byte
    order) and joined.  The keys come from the map in any order. *)
Definition LogRunning (p : ProcessRegistry) : string :=
  let elems := (map_to_list (processes p)).*1 in
  strings.Join (merge_sort String.le elems) ", ".

End registry.

(** ** The multi-value context (multi_value_context.go) *)

Module multi.

(** [context.Context] as far as [Value] goes, and the data map. *)
Record MultiValueContext : Type := mkMultiValueContext {
  parent_Value : value → value;
  data : gmap value value
}.

(** [dataList[i]], within the bounds. *)
Definition index (dataList : list value) (i : Z) : value :=
  nth (Z.to_nat i) dataList VNil.

(** The run-time panic of a map access with a key that cannot be
    hashed. *)
Definition unhashable (k : value) : value :=
  runtime_error ("hash of unhashable type " ++ type_name k).

(** The read [mp[k]] of a Go map, [nil] for a missing key, and the
    write [mp[k] = v]: both hash the key first. *)
Definition read (mp : gmap value value) (k : value) : Result value :=
  if hashable k then Ok (default VNil (mp !! k)) else Panic (unhashable k).

Definition assign (mp : gmap value value) (k v : value)
    : Result (gmap value value) :=
  if hashable k then Ok (<[k := v]> mp) else Panic (unhashable k).

(** The loop [for i := 0; i < len(dataList)/2; i++], with [n] rounds
    to go.  In [mp[dataList[i*2]] = mp[dataList[i*2+1]]] the read on
    the right is evaluated before the write is carried out. *)
Fixpoint populate (n : nat) (i : Z) (dataList : list value)
    (mp : gmap value value) : Result (gmap value value) :=
  match n with
  | O => Ok mp
  | S n' =>
      match read mp (index dataList (i * 2 + 1)) with
      | Panic p => Panic p
      | Ok v =>
          match assign mp (index dataList (i * 2)) v with
          | Panic p => Panic p
          | Ok mp' => populate n' (i + 1) dataList mp'
          end
      end
  end.

Definition NewMultiValueContext (parent : value → value)
    (dataList : list value) : Result MultiValueContext :=
  let len := Z.of_nat (length dataList) in
  match PanicIfF (negb (Z.rem len 2 =? 0))
          "data must be a list of keys and values" with
  | Panic p => Panic p
  | Ok _ =>
      match populate (Z.to_nat (Z.quot len 2)) 0 dataList ∅ with
      | Panic p => Panic p
      | Ok mp => Ok {| parent_Value := parent; data := mp |}
      end
  end.

(** [val, ok := m.data[key]] hashes the key as well. *)
Definition Value (m : MultiValueContext) (key : value) : Result value :=
  if hashable key then
    match data m !! key with
    | Some val => Ok val
    | None => Ok (parent_Value m key)
    end
  else Panic (unhashable key).

End multi.

(** ** Vocabulary of the properties *)

(** A nil pointer of a type [*strer] whose method [String()] is declared
    on the value receiver [strer]: the call through the pointer
    dereferences it.  Package fmt prints [<nil>] for it. *)
Definition nil_strer : value :=
  VObject "*main.strer" KComparable
    (Raises "invalid memory address or nil pointer dereference" "<nil>")
    NoMethod "<nil>".

(** The frame of the specification's example, at any line. *)
Definition example_frame (line : Z) : Frame :=
  {| File := "/home/user/src/pkg/sub/file.go"; Line := line;
     Function := "pkg/sub.Type.Method" |}.

Definition newline : string := String "010" "".

(** The number of [runtime.gopanic] frames in a list of frames. *)
Definition panics_in (frames : list Frame) : Z :=
  Z.of_nat (length (filter (λ f, is_gopanic f = true) frames)).

(** A goroutine stack at recovery time after two nested re-panics: the
    handler, the trampoline of the second panic, the inner handler that
    re-raised, the trampoline of the first panic, the panic site and its
    callers; [runtime.goexit] ends the stack. *)
Definition frame_gopanic : Frame :=
  {| File := "/usr/local/go/src/runtime/panic.go"; Line := 679;
     Function := "runtime.gopanic" |}.

Definition frame_at (function : string) (line : Z) : Frame :=
  {| File := "/home/user/src/github.com/acme/svc/worker/worker.go";
     Line := line; Function := "github.com/acme/svc/worker." ++ function |}.

Definition frame_goexit : Frame :=
  {| File := "/usr/local/go/src/runtime/asm_amd64.s"; Line := 1357;
     Function := "runtime.goexit" |}.

Definition nested_panic_stack : list Frame :=
  [frame_at "Serve.func1" 30; frame_gopanic; frame_at "Serve.func2" 36;
   frame_gopanic; frame_at "handle" 98; frame_at "Serve" 41; frame_goexit].

(** A registry in which [proc1] runs, and a second process context
    made for the same name. *)
Definition idle : Context → M value := λ _, mret VNil.

Definition root : Context :=
  ImbueContext Background {| logger_name := ""; logger_fields := [] |}.

Definition first_proc1 : registry.ProcessContext :=
  fst (registry.CreateProcessContext (registry.NewProcessRegistry root) "proc1").

Definition second_proc1 : registry.ProcessContext :=
  {| registry.Name := "proc1"; registry.Done := 1 |}.

Definition proc1_running : registry.ProcessRegistry :=
  let '(pc, p) := registry.CreateProcessContext
                    (registry.NewProcessRegistry root) "proc1" in
  let '(_, p) := registry.Run pc idle p in
  snd (registry.CreateProcessContext p "proc1").

(** The entries [InstrumentWithMetrics] keeps for itself, and a run of
    a body, from the world [w], that leaves them in the accumulator
    [met] as they are (it may record anything else, and make
    accumulators of its own). *)
Definition wrapper_metrics : list string := ["Success"; "Error"; "Fault"; "Time"].

Definition leaves_wrapper_metrics (met : nat) (f : M value) (w : World) : Prop :=
  ∀ name, In name wrapper_metrics →
    Metrics (deref met (snd (f w))) !! name = Metrics (deref met w) !! name.

(** The world in which [InstrumentWithMetrics] invokes its body: the
    three counters have been set. *)
Definition world_at_body (met : nat) (w : World) : World :=
  snd ((met_AddCount met "Success" 0;; met_AddCount met "Error" 0;;
        met_AddCount met "Fault" 1) w).

(** The counts [Success], [Error], [Fault] of an accumulator. *)
Definition counts (met : nat) (w : World) : float * float * float :=
  (GetMetricVal (deref met w) "Success", GetMetricVal (deref met w) "Error",
   GetMetricVal (deref met w) "Fault").

(** A body that records a metric of its own and returns an error; one
    that panics. *)
Definition failing_body (e : value) : Context → M value :=
  λ ctx, met ← lift (GetMetricsFromContext ctx);
         met_AddCount met "rows" 3;;
         mret e.

Definition panicking_body (p : value) : Context → M value :=
  λ ctx, lift (Panic p).

(** A body that opens a metrics scope of its own, counts there under
    the name [Success], and returns [e]. *)
Definition scoped_body (e : value) : Context → M value :=
  λ ctx, inner ← MakeMetricContext ctx "inner";
         met ← lift (GetMetricsFromContext inner);
         met_AddCount met "Success" 3;;
         mret e.

(** A body that takes [d] nanoseconds and returns [e]: the clock of the
    world moves on by [d]. *)
Definition slow_body (d : Duration) (e : value) : Context → M value :=
  λ ctx w, (Ok e, {| now := now w + d; callers := callers w;
                     next_id := next_id w; next_addr := next_addr w;
                     heap := heap w; events := events w |}).

Definition fresh_world : World :=
  {| now := 1000; callers := []; next_id := 1; next_addr := 1;
     heap := {[O := NewMetricsContext "op"]}; events := [] |}.

Definition scope_with_metrics : Context :=
  {| loggerKey := None; metricsKey := Some O; statsdKey := None;
     clientTypeKey := None; activeSpan := None |}.

(** The binary64 number [2^k], for [k] up to 52, and the product of a
    finite binary64 number with sign [s], mantissa [m] and exponent [e]
    by it: the mantissa is realigned, the exponent raised, and the
    result is an infinity when the exponent leaves the format. *)
Definition pow2 (k : Z) : spec_float :=
  S754_finite false 4503599627370496 (k - 52).

Definition scaled (s : bool) (m : positive) (e k : Z) : spec_float :=
  let n := Z.max (Zpos (digits2_pos m) - 1) (-1022 - e - k) in
  if e + k - 52 + n <=? 971
  then S754_finite s (Pos.shiftl_nat m (Z.to_nat (52 - n))) (e + k - 52 + n)
  else S754_infinity s.

(** One rendered line of a stack element, as [StringStack] writes it. *)
Definition render (e : StackElement) : string :=
  Fl e ++ " " ++ Fn e ++ newline.

(** The frames after the last [runtime.gopanic] frame of a list, the
    whole list when it has none. *)
Fixpoint after_last_panic (frames : list Frame) : list Frame :=
  match frames with
  | [] => []
  | f :: rest =>
      if 0 <? panics_in rest then after_last_panic rest
      else if is_gopanic f then rest
      else f :: rest
  end.

(** The units [Normalize] knows and the units it returns. *)
Definition standard_units : list StandardUnit :=
  [StandardUnitSeconds; StandardUnitMicroseconds; StandardUnitMilliseconds;
   StandardUnitBytes; StandardUnitKilobytes; StandardUnitMegabytes;
   StandardUnitGigabytes; StandardUnitTerabytes; StandardUnitBits;
   StandardUnitKilobits; StandardUnitMegabits; StandardUnitGigabits;
   StandardUnitTerabits; StandardUnitPercent; StandardUnitCount;
   StandardUnitBytesSecond; StandardUnitKilobytesSecond;
   StandardUnitMegabytesSecond; StandardUnitGigabytesSecond;
   StandardUnitTerabytesSecond; StandardUnitBitsSecond;
   StandardUnitKilobitsSecond; StandardUnitMegabitsSecond;
   StandardUnitGigabitsSecond; StandardUnitTerabitsSecond;
   StandardUnitCountSecond; StandardUnitNone].

Definition smallest_units : list StandardUnit :=
  [StandardUnitMicroseconds; StandardUnitBytes; StandardUnitBits;
   StandardUnitPercent; StandardUnitCount; StandardUnitBytesSecond;
   StandardUnitBitsSecond; StandardUnitCountSecond; StandardUnitNone].

(** The units with a multiple prefix: the power of 1024 and the unit
    they are brought to. *)
Definition prefixed_units : list (StandardUnit * Z * StandardUnit) :=
  [(StandardUnitKilobytes, 1, StandardUnitBytes);
   (StandardUnitMegabytes, 2, StandardUnitBytes);
   (StandardUnitGigabytes, 3, StandardUnitBytes);
   (StandardUnitTerabytes, 4, StandardUnitBytes);
   (StandardUnitKilobits, 1, StandardUnitBits);
   (StandardUnitMegabits, 2, StandardUnitBits);
   (StandardUnitGigabits, 3, StandardUnitBits);
   (StandardUnitTerabits, 4, StandardUnitBits);
   (StandardUnitKilobytesSecond, 1, StandardUnitBytesSecond);
   (StandardUnitMegabytesSecond, 2, StandardUnitBytesSecond);
   (StandardUnitGigabytesSecond, 3, StandardUnitBytesSecond);
   (StandardUnitTerabytesSecond, 4, StandardUnitBytesSecond);
   (StandardUnitKilobitsSecond, 1, StandardUnitBitsSecond);
   (StandardUnitMegabitsSecond, 2, StandardUnitBitsSecond);
   (StandardUnitGigabitsSecond, 3, StandardUnitBitsSecond);
   (StandardUnitTerabitsSecond, 4, StandardUnitBitsSecond)].

(** A run of [AddMetric] calls on one name and one unit, each with its
    value and its clock reading. *)
Definition AddMetrics (m : MetricsContext) (name : string)
    (calls : list (float * Time)) (unit : StandardUnit) : Result MetricsContext :=
  fold_left (λ r '(val, now),
               match r with
               | Ok m => AddMetric m name val unit now
               | Panic p => Panic p
               end) calls (Ok m).

(** The counters of a registry agree with its map: the wait group
    counts the registered processes and so does [numRunning], as a
    64-bit number. *)
Definition counted (p : registry.ProcessRegistry) : Prop :=
  registry.runningGroups p = Z.of_nat (size (registry.processes p))
  ∧ registry.numRunning p = Z.of_nat (size (registry.processes p)) mod 2 ^ 64.



(** The registry in use: the registry itself and the goroutines that
    are still running, by their process contexts.  One step is one call
    of the interface that starts processes with [TryRun] or [Run], or
    the end of one running goroutine.  [RunPeriodicProcess] is not
    among the steps. *)
Inductive registry_step
    : registry.ProcessRegistry * list registry.ProcessContext →
      registry.ProcessRegistry * list registry.ProcessContext → Prop :=
| step_CreateProcessContext p live name :
    registry_step (p, live) (snd (registry.CreateProcessContext p name), live)
| step_TryRun p live pc proc :
    registry_step (p, live)
      (snd (registry.TryRun pc proc p),
       if fst (registry.TryRun pc proc p) then pc :: live else live)
| step_Run p live pc proc :
    registry_step (p, live)
      (snd (registry.Run pc proc p),
       match fst (registry.Run pc proc p) with
       | Ok _ => pc :: live
       | Panic _ => live
       end)
| step_cancel p live :
    registry_step (p, live) (registry.cancel p, live)
| step_GetWaitChannel p live name :
    registry_step (p, live) (snd (registry.GetWaitChannel p name), live)
| step_finish p live1 live2 pc :
    registry_step (p, (live1 ++ pc :: live2)%list)
      (snd (registry.finish pc p), (live1 ++ live2)%list).

(** The tags [CopyToSpan] sets for one metric, and the sample
    [CopyToStatsd] sends for it. *)
Definition value_tag (span : Span) (name : string) (e : MetricEntry) : Event :=
  SetTag span name (TagFloat (fst (Normalize e))).

Definition unit_tag `{Utils} (span : Span) (name : string) (e : MetricEntry)
    : Event :=
  SetTag span (name ++ "_unit") (TagString (normalizeUnitName (snd (Normalize e)))).

Definition sample `{Utils} (id : nat) (opName clientType name : string)
    (e : MetricEntry) : Event :=
  Distribution id (opName ++ "." ++ name) (fst (Normalize e))
    ["unit:" ++ normalizeUnitName (snd (Normalize e));
     "client-type:" ++ clientType] 1.

(** For closed examples: an instance of [Utils] that leaves names as
    they are.  No property depends on it. *)
Definition plain_names : Utils := {| ToSnakeCase := λ s _, s |}.

(** * Properties *)

(** ** Strings *)

Lemma string_app_cons (x : ascii) (a b : string) :
  String x a ++ b = String x (a ++ b).
Proof. reflexivity. Qed.

Lemma string_app_assoc (a b c : string) : (a ++ b) ++ c = a ++ (b ++ c).
Proof.
  induction a as [|x a IH]; [reflexivity|].
  rewrite !string_app_cons. f_equal. exact IH.
Qed.

Lemma string_app_nil_r (a : string) : a ++ "" = a.
Proof.
  induction a as [|x a IH]; [reflexivity|].
  rewrite string_app_cons. f_equal. exact IH.
Qed.

(** ** Package strings: separators and slices *)

Section Separators.

Import strings.

Variable c : ascii.

Implicit Types (a b s : string).

Lemma len_app a b : len (a ++ b) = len a + len b.
Proof.
  unfold len. induction a as [|x a IH]; [reflexivity|].
  rewrite string_app_cons. cbn [String.length]. lia.
Qed.

Lemma len_nonneg s : 0 ≤ len s.
Proof. unfold len. lia. Qed.

Lemma Count_nonneg s : 0 ≤ Count s c.
Proof.
  induction s as [|x s IH]; cbn [Count]; [lia|].
  destruct (Ascii.eqb x c); lia.
Qed.

Lemma Count_app a b : Count (a ++ b) c = Count a c + Count b c.
Proof.
  induction a as [|x a IH]; [reflexivity|].
  rewrite string_app_cons. cbn [Count]. rewrite IH. lia.
Qed.

Lemma LastIndex_range s : -1 ≤ LastIndex s c < len s ∨ (LastIndex s c = -1 ∧ s = "").
Proof.
  induction s as [|x s IH]; [right; split; reflexivity|].
  left. cbn [LastIndex]. unfold len in *. cbn [String.length].
  destruct (Z.eqb_spec (LastIndex s c) (-1)) as [E|E].
  - destruct (Ascii.eqb x c); lia.
  - destruct IH as [IH|[IH _]]; lia.
Qed.

Lemma LastIndex_absent s : Count s c = 0 → LastIndex s c = -1.
Proof.
  induction s as [|x s IH]; [reflexivity|].
  cbn [Count LastIndex]. pose proof (Count_nonneg s).
  destruct (Ascii.eqb x c); intros E; [lia|].
  rewrite IH by lia. reflexivity.
Qed.

Lemma LastIndex_last a b :
  Count b c = 0 → LastIndex (a ++ String c b) c = len a.
Proof.
  intros Hb. induction a as [|x a IH].
  - change ("" ++ String c b) with (String c b). cbn [LastIndex].
    rewrite (LastIndex_absent _ Hb), Ascii.eqb_refl. reflexivity.
  - rewrite string_app_cons. cbn [LastIndex]. rewrite IH.
    pose proof (len_nonneg a).
    destruct (Z.eqb_spec (len a) (-1)); [lia|].
    unfold len. cbn [String.length]. lia.
Qed.

Lemma Index_first a b :
  Count a c = 0 → Index (a ++ String c b) c = len a.
Proof.
  induction a as [|x a IH].
  - intros _. change ("" ++ String c b) with (String c b). cbn [Index].
    now rewrite Ascii.eqb_refl.
  - rewrite string_app_cons. cbn [Count Index]. pose proof (Count_nonneg a).
    destruct (Ascii.eqb x c); intros E; [lia|].
    rewrite IH by lia. pose proof (len_nonneg a).
    destruct (Z.eqb_spec (len a) (-1)); [lia|].
    unfold len. cbn [String.length]. lia.
Qed.

Lemma take_app a b n : (n ≤ String.length a)%nat → take n (a ++ b) = take n a.
Proof.
  revert n. induction a as [|x a IH]; intros n Hn.
  - cbn [String.length] in Hn. replace n with O by lia. now destruct b.
  - destruct n as [|n]; [reflexivity|].
    rewrite string_app_cons. cbn [take String.length] in *. f_equal. apply IH. lia.
Qed.

Lemma take_all a : take (String.length a) a = a.
Proof. induction a as [|x a IH]; [reflexivity|]. cbn. now rewrite IH. Qed.

Lemma slice_to_app a b i : i ≤ len a → slice_to (a ++ b) i = slice_to a i.
Proof. unfold slice_to, len. intros Hi. apply take_app. lia. Qed.

Lemma slice_to_len a : slice_to a (len a) = a.
Proof. unfold slice_to, len. rewrite Nat2Z.id. apply take_all. Qed.

Lemma drop_app a b : drop (String.length a) (a ++ b) = b.
Proof.
  induction a as [|x a IH]; [now destruct b|].
  rewrite string_app_cons. cbn [drop String.length]. exact IH.
Qed.

Lemma slice_from_sep a b : slice_from (a ++ String c b) (len a + 1) = b.
Proof.
  unfold slice_from, len.
  replace (Z.to_nat (Z.of_nat (String.length a) + 1))
    with (String.length (a ++ String c "")).
  - replace (a ++ String c b) with ((a ++ String c "") ++ b); [apply drop_app|].
    now rewrite string_app_assoc.
  - pose proof (len_app a (String c "")) as E. unfold len in E.
    cbn [String.length] in E. lia.
Qed.

Lemma Count_split s :
  0 < Count s c →
  ∃ a b, s = a ++ String c b ∧ Count b c = 0 ∧ Count a c = Count s c - 1.
Proof.
  induction s as [|x s IH]; cbn [Count]; [lia|].
  pose proof (Count_nonneg s) as Hs.
  destruct (Z.eq_dec (Count s c) 0) as [E0|E0].
  - destruct (Ascii.eqb_spec x c) as [->|Hx]; [|lia].
    intros _. exists "", s. repeat split; [assumption | cbn [Count]; lia].
  - destruct IH as (a & b & -> & Hb & Ha); [lia|]. intros _.
    exists (String x a), b. split; [now rewrite string_app_cons|].
    split; [assumption|]. cbn [Count]. rewrite Count_app. cbn [Count].
    rewrite Ascii.eqb_refl, Hb in *. lia.
Qed.

End Separators.

Section ParseFrame.

Import strings.

Lemma strip_prefix n a b i :
  -1 ≤ i ≤ len a → strip n (a ++ b) i = strip n a i.
Proof.
  revert i. induction n as [|n IH]; intros i Hi; [reflexivity|].
  cbn [strip]. rewrite slice_to_app by lia.
  destruct (Z.eqb_spec (LastIndex (slice_to a i) "/") (-1)); [reflexivity|].
  apply IH. destruct (LastIndex_range "/" (slice_to a i)) as [Hl|[Hl _]]; [|lia].
  assert (len (slice_to a i) ≤ len a); [|lia].
  unfold slice_to, len. clear. generalize (Z.to_nat i) as k.
  induction a as [|x a IHa]; intros [|k]; cbn [take String.length]; try lia.
  specialize (IHa k). lia.
Qed.

(** [n + 1] rounds on a path whose last part has [n] separators stop
    at the separator before that part. *)
Lemma strip_root n root rel :
  Count rel "/" = Z.of_nat n →
  strip (S n) (root ++ String "/" rel) (len (root ++ String "/" rel)) = len root.
Proof.
  revert rel. induction n as [|n IH]; intros rel Hrel.
  - cbn [strip]. rewrite slice_to_len, LastIndex_last by assumption.
    pose proof (len_nonneg root).
    destruct (Z.eqb_spec (len root) (-1)); [lia | reflexivity].
  - destruct (Count_split "/" rel) as (a & b & -> & Hb & Ha); [lia|].
    replace (root ++ String "/" (a ++ String "/" b))
      with ((root ++ String "/" a) ++ String "/" b)
      by now rewrite string_app_assoc, string_app_cons.
    remember (S n) as k. cbn [strip]. subst k.
    rewrite slice_to_len, LastIndex_last by assumption.
    pose proof (len_nonneg (root ++ String "/" a)).
    destruct (Z.eqb_spec (len (root ++ String "/" a)) (-1)); [lia|].
    rewrite strip_prefix by lia. apply IH. lia.
Qed.

Lemma len_take k s : len (take k s) ≤ Z.of_nat k.
Proof.
  unfold len. revert k. induction s as [|x s IH]; intros [|k];
    cbn [take String.length]; try lia.
  specialize (IH k). lia.
Qed.

(** The indices of [parseFrame] stay in range: the loop only moves [i]
    down, to -1 at worst, so [path[:i]] and [path[i+1:]] are proper
    slices. *)
Lemma strip_in_range n path i :
  0 ≤ i ≤ len path → -1 ≤ strip n path i ≤ i.
Proof.
  revert i. induction n as [|n IH]; intros i Hi; cbn [strip]; [lia|].
  destruct (Z.eqb_spec (LastIndex (slice_to path i) "/") (-1)); [lia|].
  pose proof (len_take (Z.to_nat i) path) as Ht. fold (slice_to path i) in Ht.
  destruct (LastIndex_range "/" (slice_to path i)) as [Hl|[Hl _]]; [|lia].
  specialize (IH (LastIndex (slice_to path i) "/")). lia.
Qed.

Lemma slice_from_0 s : slice_from s 0 = s.
Proof. unfold slice_from. now destruct s. Qed.

(** The label without its package qualification. *)
Lemma label_unqualified dir pkg name :
  dir = "" ∨ (∃ d, dir = d ++ "/") →
  Count pkg "/" = 0 → Count name "/" = 0 → Count pkg "." = 0 →
  let label := dir ++ pkg ++ String "." name in
  let label := slice_from label (LastIndex label "/" + 1) in
  slice_from label (Index label "." + 1) = name.
Proof.
  intros Hdir Hp Hn Hd. cbv zeta.
  assert (Hq : Count (pkg ++ String "." name) "/" = 0).
  { rewrite Count_app. cbn [Count]. change (Ascii.eqb "." "/") with false. lia. }
  assert (E : slice_from (dir ++ pkg ++ String "." name)
                (LastIndex (dir ++ pkg ++ String "." name) "/" + 1)
              = pkg ++ String "." name).
  { destruct Hdir as [->|[d ->]].
    - change ("" ++ pkg ++ String "." name) with (pkg ++ String "." name).
      rewrite LastIndex_absent by assumption. apply slice_from_0.
    - replace ((d ++ "/") ++ pkg ++ String "." name)
        with (d ++ String "/" (pkg ++ String "." name))
        by now rewrite string_app_assoc.
      rewrite LastIndex_last by assumption. apply slice_from_sep. }
  rewrite E, Index_first by assumption. apply slice_from_sep.
Qed.

End ParseFrame.

(** ** The stack capturer *)

Section StackCapturer.

(** C7, as stated, fails: the example frame does not render with the
    label [Method]; only the package qualification is removed from
    the label, the type stays. *)
Lemma example_frame_label_is_not_Method :
  line_of (example_frame 42) ≠ "pkg/sub/file.go:42 Method" ++ newline
  ∧ Fn (element_of (example_frame 42)) ≠ "Method".
Proof. split; vm_compute; discriminate. Qed.

(** C7, amended: whatever the build root, when the rest of the file
    path has one separator more than the label (the package path plus
    the file name), [parseFrame] returns that rest, and it returns the
    label without its package qualification, i.e. cut after the last
    separator and then after the first dot; the frame renders as
    [rest:line label].  So the example frame, at every line, renders as
    [pkg/sub/file.go:<line> Type.Method]. *)
Theorem example_frame_rendering (line : Z) :
  (∀ root rel dir pkg name,
     strings.Count rel "/"
     = strings.Count (dir ++ pkg ++ String "." name) "/" + 1 →
     dir = "" ∨ (∃ d, dir = d ++ "/") →
     strings.Count pkg "/" = 0 → strings.Count name "/" = 0 →
     strings.Count pkg "." = 0 →
     let frame := {| File := root ++ String "/" rel; Line := line;
                     Function := dir ++ pkg ++ String "." name |} in
     parseFrame frame = (rel, line, name)
     ∧ line_of frame = rel ++ ":" ++ Itoa line ++ " " ++ name ++ newline)
  ∧ parseFrame (example_frame line) = ("pkg/sub/file.go", line, "Type.Method")
  ∧ line_of (example_frame line)
    = "pkg/sub/file.go:" ++ Itoa line ++ " Type.Method" ++ newline
  ∧ element_of (example_frame line)
    = {| Fl := "pkg/sub/file.go:" ++ Itoa line; Fn := "Type.Method" |}.
Proof.
  assert (General : ∀ root rel dir pkg name,
     strings.Count rel "/"
     = strings.Count (dir ++ pkg ++ String "." name) "/" + 1 →
     dir = "" ∨ (∃ d, dir = d ++ "/") →
     strings.Count pkg "/" = 0 → strings.Count name "/" = 0 →
     strings.Count pkg "." = 0 →
     parseFrame {| File := root ++ String "/" rel; Line := line;
                   Function := dir ++ pkg ++ String "." name |}
     = (rel, line, name)).
  { intros root rel dir pkg name Hrel Hdir Hp Hn Hd.
    unfold parseFrame. cbn [File Line Function].
    pose proof (Count_nonneg "/" (dir ++ pkg ++ String "." name)) as Hc.
    replace (Z.to_nat (strings.Count (dir ++ pkg ++ String "." name) "/" + 2))
      with (S (Z.to_nat (strings.Count rel "/"))) by lia.
    rewrite strip_root by lia.
    rewrite slice_from_sep.
    now rewrite (label_unqualified dir pkg name Hdir Hp Hn Hd). }
  assert (Hp : parseFrame (example_frame line)
               = ("pkg/sub/file.go", line, "Type.Method")).
  { apply (General "/home/user/src" "pkg/sub/file.go" "pkg/" "sub" "Type.Method");
      try reflexivity.
    right. now exists "pkg". }
  split; [|split; [exact Hp|]].
  - intros root rel dir pkg name Hrel Hdir Hpk Hn Hd frame.
    pose proof (General root rel dir pkg name Hrel Hdir Hpk Hn Hd) as E.
    split; [exact E|]. unfold line_of. fold frame in E. now rewrite E.
  - unfold line_of, element_of. rewrite Hp. split; reflexivity.
Qed.

(** The general part of the theorem at the example frame. *)
Lemma example_frame_rendering_witness :
  let frame := {| File := "/home/user/src" ++ String "/" "pkg/sub/file.go";
                  Line := 42;
                  Function := "pkg/" ++ "sub" ++ String "." "Type.Method" |} in
  parseFrame frame = ("pkg/sub/file.go", 42, "Type.Method")
  ∧ line_of frame
    = "pkg/sub/file.go" ++ ":" ++ Itoa 42 ++ " " ++ "Type.Method" ++ newline.
Proof.
  refine (proj1 (example_frame_rendering 42)
            "/home/user/src" "pkg/sub/file.go" "pkg/" "sub" "Type.Method"
            eq_refl (or_intror (ex_intro _ "pkg" eq_refl)) eq_refl eq_refl eq_refl).
Defined.

Lemma convertPanicMsg_Stringer m s :
  as_Stringer m = Returns s → convertPanicMsg m = Ok s.
Proof. destruct m; simpl; try discriminate. now intros ->. Qed.

Lemma convertPanicMsg_error m e :
  as_Stringer m = NoMethod → as_error m = Returns e → convertPanicMsg m = Ok e.
Proof. destruct m; simpl; try discriminate. now intros -> ->. Qed.

Lemma convertPanicMsg_nil : convertPanicMsg VNil = Ok "recovered from panic".
Proof. reflexivity. Qed.

Lemma convertPanicMsg_reflect m :
  m ≠ VNil → as_Stringer m = NoMethod → as_error m = NoMethod →
  convertPanicMsg m = Ok (reflect_String m).
Proof. destruct m; simpl; try congruence. now intros _ -> ->. Qed.

(** C9, amended: the conversion agrees, on every payload, with the case
    order of the specification (Stringer, else error, else the generic
    message for nil, else the reflective conversion, which gives the
    underlying string for every value of kind string); and it is not
    total: it fails exactly when the method it calls, [String()] or
    else [Error()], fails, and then with the run-time error of that
    method. *)
Theorem convertPanicMsg_follows_spec (m : value) :
  convertPanicMsg m = convertPanicMsg_spec m
  ∧ (∀ s, as_Stringer m = Returns s → convertPanicMsg m = Ok s)
  ∧ (∀ s, as_Stringer m = NoMethod → as_error m = Returns s →
       convertPanicMsg m = Ok s)
  ∧ (m = VNil → convertPanicMsg m = Ok "recovered from panic")
  ∧ (m ≠ VNil → as_Stringer m = NoMethod → as_error m = NoMethod →
     convertPanicMsg m = Ok (reflect_String m))
  ∧ (∀ p, convertPanicMsg m = Panic p
          ↔ ∃ e shown,
              p = runtime_error e
              ∧ (as_Stringer m = Raises e shown
                 ∨ (as_Stringer m = NoMethod ∧ as_error m = Raises e shown))).
Proof.
  split; [destruct m as [| | | |t k [|s|e shown] [|s'|e' shown'] r]; reflexivity|].
  split; [intros s; apply convertPanicMsg_Stringer|].
  split; [intros s; apply convertPanicMsg_error|].
  split; [now intros ->|].
  split; [apply convertPanicMsg_reflect|].
  intros p. split.
  - destruct m as [| | | |t k [|s|e shown] [|s'|e' shown'] r]; cbn;
      try discriminate; intros [= <-]; eauto 8.
  - intros (e & shown & -> & [Hs|[Hs He]]);
      destruct m as [| | | |t k st er r]; cbn in *; try discriminate.
    + now rewrite Hs.
    + now rewrite Hs, He.
Qed.

(** C9 fails on the code as it stands in the claim: the conversion is
    not total.  A nil pointer whose type has [String()] on the value
    receiver passes the assertion [msg.(fmt.Stringer)], and the call
    dereferences it. *)
Lemma convertPanicMsg_fails_with_the_method :
  as_Stringer nil_strer ≠ NoMethod
  ∧ convertPanicMsg nil_strer
    = Panic (runtime_error "invalid memory address or nil pointer dereference")
  ∧ ∀ skipFrames flag goroutine,
      NewShortenedStackTrace skipFrames flag nil_strer goroutine
      = Panic (runtime_error "invalid memory address or nil pointer dereference").
Proof. split; [discriminate|]. split; reflexivity. Qed.

(** The reflective conversion on a value of a named string type and on
    one of a struct type, without methods. *)
Example convertPanicMsg_reflects :
  convertPanicMsg (VObject "main.Code" KString NoMethod NoMethod "E42") = Ok "E42"
  ∧ convertPanicMsg (VObject "main.Point" KComparable NoMethod NoMethod "{1 2}")
    = Ok "<main.Point Value>"
  ∧ convertPanicMsg (VInt 7) = Ok "<int Value>"
  ∧ convertPanicMsg (VString "boom") = Ok "boom".
Proof. repeat split. Qed.

Lemma panics_in_cons f frames :
  panics_in (f :: frames)
  = (if is_gopanic f then 1 else 0) + panics_in frames.
Proof.
  unfold panics_in. rewrite filter_cons.
  destruct (is_gopanic f) eqn:E; case_decide; try congruence; simpl length; lia.
Qed.

Lemma panics_in_app pre post :
  panics_in (pre ++ post) = panics_in pre + panics_in post.
Proof.
  induction pre as [|f pre IH]; [reflexivity|].
  simpl app. rewrite !panics_in_cons, IH. lia.
Qed.

Lemma panics_in_none frames :
  forallb (λ f, negb (is_gopanic f)) frames = true → panics_in frames = 0.
Proof.
  induction frames as [|f frames IH]; [reflexivity|].
  simpl. intros [Hf Hr]%andb_prop. rewrite panics_in_cons, IH by assumption.
  now destruct (is_gopanic f).
Qed.

Lemma countPanics_loop_scans_all frames panics :
  countPanics_loop frames panics = panics + panics_in frames.
Proof.
  revert panics. induction frames as [|f frames IH]; intros panics.
  - unfold panics_in. simpl. lia.
  - simpl. rewrite panics_in_cons. destruct (is_gopanic f); rewrite IH; lia.
Qed.

Lemma JSONStack_loop_render frames acc :
  JSONStack_loop frames 0 acc = (acc ++ map element_of frames)%list.
Proof.
  revert acc. induction frames as [|f frames IH]; intros acc; simpl.
  - now rewrite app_nil_r.
  - rewrite IH, <- app_assoc. reflexivity.
Qed.

Lemma StringStack_loop_render frames res :
  StringStack_loop frames 0 res = res ++ String.concat "" (map line_of frames).
Proof.
  revert res. induction frames as [|f frames IH]; intros res.
  - simpl. now rewrite string_app_nil_r.
  - cbn [StringStack_loop Z.ltb Z.compare andb]. rewrite IH, string_app_assoc.
    f_equal. simpl. destruct frames; simpl; [now rewrite string_app_nil_r | reflexivity].
Qed.

Lemma JSONStack_loop_suppress pre t rest acc :
  is_gopanic t = true →
  JSONStack_loop (pre ++ t :: rest) (panics_in pre + 1) acc
  = JSONStack_loop rest 0 acc.
Proof.
  intros Ht. induction pre as [|f pre IH].
  - change (panics_in [] + 1) with 1. simpl. now rewrite Ht.
  - simpl app. rewrite panics_in_cons.
    assert (0 ≤ panics_in pre) by (unfold panics_in; lia).
    cbn [JSONStack_loop].
    destruct (is_gopanic f) eqn:Ef.
    + replace (0 <? 1 + panics_in pre + 1) with true by (symmetry; apply Z.ltb_lt; lia).
      simpl andb. cbv iota.
      replace (1 + panics_in pre + 1 - 1) with (panics_in pre + 1) by lia.
      exact IH.
    + replace (0 <? 0 + panics_in pre + 1) with true by (symmetry; apply Z.ltb_lt; lia).
      simpl. exact IH.
Qed.

Lemma StringStack_loop_suppress pre t rest res :
  is_gopanic t = true →
  StringStack_loop (pre ++ t :: rest) (panics_in pre + 1) res
  = StringStack_loop rest 0 res.
Proof.
  intros Ht. induction pre as [|f pre IH].
  - change (panics_in [] + 1) with 1. simpl. now rewrite Ht.
  - simpl app. rewrite panics_in_cons.
    assert (0 ≤ panics_in pre) by (unfold panics_in; lia).
    cbn [StringStack_loop].
    destruct (is_gopanic f) eqn:Ef.
    + replace (0 <? 1 + panics_in pre + 1) with true by (symmetry; apply Z.ltb_lt; lia).
      simpl andb. cbv iota.
      replace (1 + panics_in pre + 1 - 1) with (panics_in pre + 1) by lia.
      exact IH.
    + replace (0 <? 0 + panics_in pre + 1) with true by (symmetry; apply Z.ltb_lt; lia).
      simpl. exact IH.
Qed.

End StackCapturer.

Section SkipToFirstPanic.

Variables (pre rest : list Frame) (t last : Frame) (message : string).

Let s : ShortenedStackTrace :=
  {| skipToFirstPanic := true; stack := pre ++ t :: rest ++ [last];
     msg := message |}.

Hypothesis t_gopanic : is_gopanic t = true.
Hypothesis rest_clean : forallb (λ f, negb (is_gopanic f)) rest = true.

Lemma visited_s : visited (stack s) = (pre ++ t :: rest)%list.
Proof.
  unfold visited, s. cbn [stack].
  replace (pre ++ t :: rest ++ [last])%list
    with ((pre ++ t :: rest) ++ [last])%list by now rewrite <- app_assoc.
  apply removelast_last.
Qed.

Lemma countPanics_s : countPanics s = panics_in pre + 1.
Proof.
  unfold countPanics. rewrite visited_s, countPanics_loop_scans_all.
  rewrite panics_in_app, panics_in_cons, t_gopanic, (panics_in_none rest rest_clean).
  lia.
Qed.

(** C8: with [skipToFirstPanic] set, on a stack whose visited frames
    are [pre], then a [runtime.gopanic] frame [t], then frames [rest]
    free of such frames, the pre-scan counts every trampoline frame of
    the whole visited stack ([pre] may hold any number of them), and
    both renderings consist of [rest] alone: everything up to and
    including the last trampoline frame is suppressed. *)
Theorem skipToFirstPanic_renders_from_panic_site :
  countPanics s = panics_in (visited (stack s))
  ∧ JSONStack s = map element_of rest
  ∧ StringStack s = String.concat "" (map line_of rest).
Proof.
  split; [|split].
  - unfold countPanics. rewrite countPanics_loop_scans_all. lia.
  - unfold JSONStack. cbn [skipToFirstPanic s].
    rewrite visited_s.
    change (countPanics _) with (countPanics s). rewrite countPanics_s.
    rewrite JSONStack_loop_suppress by assumption.
    now rewrite JSONStack_loop_render.
  - unfold StringStack. cbn [skipToFirstPanic s].
    rewrite visited_s.
    change (countPanics _) with (countPanics s). rewrite countPanics_s.
    rewrite StringStack_loop_suppress by assumption.
    now rewrite StringStack_loop_render.
Qed.

End SkipToFirstPanic.

(** The theorem at a stack with two nested trampolines. *)
Lemma skipToFirstPanic_nested_witness :
  let s := {| skipToFirstPanic := true;
              stack := [frame_at "Serve.func1" 30; frame_gopanic;
                        frame_at "Serve.func2" 36]
                       ++ frame_gopanic
                          :: [frame_at "handle" 98; frame_at "Serve" 41]
                             ++ [frame_goexit];
              msg := "boom" |} in
  countPanics s = panics_in (visited (stack s))
  ∧ JSONStack s = map element_of [frame_at "handle" 98; frame_at "Serve" 41]
  ∧ StringStack s
    = String.concat "" (map line_of [frame_at "handle" 98; frame_at "Serve" 41]).
Proof.
  exact (skipToFirstPanic_renders_from_panic_site
           [frame_at "Serve.func1" 30; frame_gopanic; frame_at "Serve.func2" 36]
           [frame_at "handle" 98; frame_at "Serve" 41]
           frame_gopanic frame_goexit "boom" eq_refl eq_refl).
Defined.

(** Two nested trampolines, computed: the pre-scan counts both, and the
    first rendered frame is the panic site [handle]. *)
Example nested_panic_stack_rendering :
  let s := {| skipToFirstPanic := true; stack := nested_panic_stack;
              msg := "boom" |} in
  countPanics s = 2
  ∧ JSONStack s = [ {| Fl := "github.com/acme/svc/worker/worker.go:98"; Fn := "handle" |};
                    {| Fl := "github.com/acme/svc/worker/worker.go:41"; Fn := "Serve" |} ]
  ∧ StringStack s
    = "github.com/acme/svc/worker/worker.go:98 handle" ++ newline
      ++ "github.com/acme/svc/worker/worker.go:41 Serve" ++ newline.
Proof. cbv zeta. split; [|split]; vm_compute; reflexivity. Qed.

(** Without the flag nothing is suppressed. *)
Example nested_panic_stack_unfiltered :
  length (JSONStack {| skipToFirstPanic := false; stack := nested_panic_stack;
                       msg := "boom" |}) = 6%nat.
Proof. reflexivity. Qed.

(** ** Scaling binary64 numbers by powers of two *)

(** [Normalize] multiplies by 1024 up to four times in a row.  On
    binary64 numbers each such product is exact until it overflows, so
    the chain is one multiplication by the power of 1024; this is shown
    on the specification of the primitive floats. *)

Section FloatScaling.

Lemma pos_pow2 (q : positive) (j : Z) : 0 <= j → 0 < Zpos q * 2 ^ j.
Proof. intros Hj. apply Z.mul_pos_pos; [lia | apply Z.pow_pos_nonneg; lia]. Qed.

Lemma pow2_double (p : positive) : 2 ^ Zpos p~0 = 2 ^ Zpos p * 2 ^ Zpos p.
Proof.
  replace (Zpos p~0) with (Zpos p + Zpos p) by lia.
  apply Z.pow_add_r; lia.
Qed.

Lemma pow2_double_1 (p : positive) : 2 ^ Zpos p~1 = 2 * (2 ^ Zpos p * 2 ^ Zpos p).
Proof.
  replace (Zpos p~1) with (1 + (Zpos p + Zpos p)) by lia.
  rewrite Z.pow_add_r, Z.pow_add_r by lia. reflexivity.
Qed.

Lemma iter_shr_1_exact p : ∀ q,
  SpecFloat.iter_pos shr_1 p {| shr_m := Zpos q * 2 ^ Zpos p; shr_r := false; shr_s := false |}
  = {| shr_m := Zpos q; shr_r := false; shr_s := false |}.
Proof.
  induction p as [p IH|p IH|]; intros q.
  - cbn [SpecFloat.iter_pos].
    pose proof (pos_pow2 q (Zpos p) ltac:(lia)) as H1.
    set (y := Z.to_pos (Zpos q * 2 ^ Zpos p)).
    assert (Ey : Zpos y = Zpos q * 2 ^ Zpos p) by (unfold y; rewrite Z2Pos.id; lia).
    pose proof (pos_pow2 y (Zpos p) ltac:(lia)) as H2.
    set (z := Z.to_pos (Zpos y * 2 ^ Zpos p)).
    assert (Ez : Zpos z = Zpos y * 2 ^ Zpos p) by (unfold z; rewrite Z2Pos.id; lia).
    assert (E : Zpos q * 2 ^ Zpos p~1 = Zpos z~0).
    { rewrite pow2_double_1, (Pos2Z.inj_xO z), Ez, Ey. ring. }
    rewrite E. cbn [shr_1 orb]. rewrite Ez, IH, Ey. apply IH.
  - cbn [SpecFloat.iter_pos].
    pose proof (pos_pow2 q (Zpos p) ltac:(lia)) as H1.
    set (y := Z.to_pos (Zpos q * 2 ^ Zpos p)).
    assert (Ey : Zpos y = Zpos q * 2 ^ Zpos p) by (unfold y; rewrite Z2Pos.id; lia).
    assert (E : Zpos q * 2 ^ Zpos p~0 = Zpos y * 2 ^ Zpos p).
    { rewrite pow2_double, Ey. ring. }
    rewrite E, IH, Ey. apply IH.
  - cbn [SpecFloat.iter_pos]. change (2 ^ 1) with 2. rewrite Z.mul_comm. reflexivity.
Qed.

(** Mantissas shifted left. *)
Lemma shiftl_nat_Z m j : Zpos (Pos.shiftl_nat m j) = Zpos m * 2 ^ Z.of_nat j.
Proof.
  induction j as [|j IH]; [simpl; lia|].
  rewrite Nat2Z.inj_succ, Z.pow_succ_r by lia.
  cbn [Pos.shiftl_nat nat_rect]. rewrite Pos2Z.inj_xO.
  change (nat_rect _ m _ j) with (Pos.shiftl_nat m j). rewrite IH. ring.
Qed.

Lemma digits_shiftl_nat m j :
  Zpos (digits2_pos (Pos.shiftl_nat m j)) = Zpos (digits2_pos m) + Z.of_nat j.
Proof.
  induction j as [|j IH]; [simpl; lia|].
  cbn [Pos.shiftl_nat nat_rect digits2_pos].
  change (nat_rect _ m _ j) with (Pos.shiftl_nat m j).
  rewrite Pos2Z.inj_succ, IH. lia.
Qed.

Lemma shiftl_nat_add m i j :
  Pos.shiftl_nat (Pos.shiftl_nat m i) j = Pos.shiftl_nat m (i + j).
Proof.
  apply Pos2Z.inj. rewrite !shiftl_nat_Z, Nat2Z.inj_add, Z.pow_add_r by lia. ring.
Qed.

Lemma shr_fexp_exact (m q : positive) (e : Z) (p : positive) :
  fexp prec emax (Zpos (digits2_pos m) + e) - e = Zpos p →
  Zpos m = Zpos q * 2 ^ Zpos p →
  shr_fexp prec emax (Zpos m) e loc_Exact
  = ({| shr_m := Zpos q; shr_r := false; shr_s := false |}, e + Zpos p).
Proof.
  intros Hn Hm. unfold shr_fexp. cbn [Zdigits2 shr_record_of_loc].
  rewrite Hn. cbn [shr]. now rewrite Hm, iter_shr_1_exact.
Qed.

Lemma shr_fexp_canonical (q : positive) (e : Z) :
  fexp prec emax (Zpos (digits2_pos q) + e) - e = 0 →
  shr_fexp prec emax (Zpos q) e loc_Exact
  = ({| shr_m := Zpos q; shr_r := false; shr_s := false |}, e).
Proof.
  intros Hn. unfold shr_fexp. cbn [Zdigits2 shr_record_of_loc].
  now rewrite Hn.
Qed.

Lemma bounded_spec m e :
  bounded prec emax m e = true ↔
  Z.max (Zpos (digits2_pos m) + e - 53) (-1074) = e ∧ e <= 971.
Proof.
  unfold bounded, canonical_mantissa, fexp, SpecFloat.emin, prec, emax.
  rewrite andb_true_iff, Z.eqb_eq, Z.leb_le. reflexivity.
Qed.

Lemma SFmul_pow2 s m e k :
  bounded prec emax m e = true → 1 <= k <= 51 →
  SFmul prec emax (S754_finite s m e) (pow2 k) = scaled s m e k.
Proof.
  intros [Hc He]%bounded_spec Hk. unfold scaled, pow2, SFmul.
  rewrite xorb_false_r.
  set (d := Zpos (digits2_pos m)) in *.
  assert (Hd : 1 <= d) by (unfold d; lia).
  set (n := Z.max (d - 1) (-1022 - e - k)).
  assert (Hn : 1 <= n <= 52) by lia.
  assert (Hmc : (m * 4503599627370496)%positive = Pos.shiftl_nat m 52).
  { apply Pos2Z.inj. rewrite shiftl_nat_Z, Pos2Z.inj_mul. reflexivity. }
  rewrite Hmc. unfold binary_round_aux.
  destruct n as [|p|p] eqn:En; try lia.
  set (q := Pos.shiftl_nat m (Z.to_nat (52 - Zpos p))).
  rewrite (shr_fexp_exact _ q _ p).
  - cbn [shr_m loc_of_shr_record round_nearest_even].
    rewrite shr_fexp_canonical.
    + cbn [shr_m]. unfold prec, emax.
      replace (e + (k - 52) + Zpos p) with (e + k - 52 + Zpos p) by lia.
      reflexivity.
    + unfold q. rewrite digits_shiftl_nat. fold d.
      unfold fexp, SpecFloat.emin, prec, emax. lia.
  - rewrite digits_shiftl_nat. fold d.
    unfold fexp, SpecFloat.emin, prec, emax. lia.
  - unfold q. rewrite !shiftl_nat_Z, <- Z.mul_assoc, <- Z.pow_add_r by lia.
    do 2 f_equal. lia.
Qed.

Lemma SFmul_pow2_shifted s m j e k :
  bounded prec emax (Pos.shiftl_nat m j) e = true → 1 <= k <= 51 →
  SFmul prec emax (S754_finite s (Pos.shiftl_nat m j) e) (pow2 k)
  = let n := Z.max (Zpos (digits2_pos m) + Z.of_nat j - 1) (-1022 - e - k) in
    if e + k - 52 + n <=? 971
    then S754_finite s (Pos.shiftl_nat m (j + Z.to_nat (52 - n))) (e + k - 52 + n)
    else S754_infinity s.
Proof.
  intros Hb Hk. rewrite SFmul_pow2 by assumption. unfold scaled.
  rewrite digits_shiftl_nat, shiftl_nat_add. reflexivity.
Qed.

Lemma SFmul_infinity_pow2 s k :
  SFmul prec emax (S754_infinity s) (pow2 k) = S754_infinity s.
Proof. unfold pow2. cbn [SFmul]. now rewrite xorb_false_r. Qed.

Lemma bounded_shifted m j e :
  Z.max (Zpos (digits2_pos m) + Z.of_nat j + e - 53) (-1074) = e → e <= 971 →
  bounded prec emax (Pos.shiftl_nat m j) e = true.
Proof. intros. apply bounded_spec. rewrite digits_shiftl_nat. lia. Qed.

(** Scaling by 1024 three times over is scaling by 1024^3, on every
    valid binary64 number. *)
Lemma SFmul_1024_thrice x :
  valid_binary x = true →
  SFmul prec emax (SFmul prec emax (SFmul prec emax x (pow2 10)) (pow2 10)) (pow2 10)
  = SFmul prec emax x (pow2 30).
Proof.
  intros Hb. destruct x as [s|s| |s m e];
    try (cbn; now rewrite ?xorb_false_r).
  cbn in Hb.
  pose proof Hb as [Hc He]%bounded_spec.
  change m with (Pos.shiftl_nat m 0) at 1 2.
  change m with (Pos.shiftl_nat m 0) in Hb.
  set (d := Zpos (digits2_pos m)) in *.
  assert (Hd : 1 <= d) by (unfold d; lia).
  rewrite (SFmul_pow2_shifted s m 0 e 30) by (assumption || lia).
  rewrite (SFmul_pow2_shifted s m 0 e 10) by (assumption || lia).
  fold d. cbv zeta. change (Z.of_nat 0) with 0.
  destruct (Z.leb_spec (e + 10 - 52 + Z.max (d + 0 - 1) (-1022 - e - 10)) 971) as [L1|L1].
  - match goal with |- context [S754_finite s (Pos.shiftl_nat m ?j) ?e'] =>
      set (j1 := j); set (e1 := e') end.
    rewrite (SFmul_pow2_shifted s m j1 e1 10);
      [|apply bounded_shifted; unfold j1, e1; fold d; lia | lia].
    fold d. cbv zeta.
    destruct (Z.leb_spec (e1 + 10 - 52
                          + Z.max (d + Z.of_nat j1 - 1) (-1022 - e1 - 10)) 971) as [L2|L2].
    + match goal with |- context [S754_finite s (Pos.shiftl_nat m ?j) ?e'] =>
        set (j2 := j); set (e2 := e') end.
      rewrite (SFmul_pow2_shifted s m j2 e2 10);
        [|apply bounded_shifted; unfold j2, e2, j1, e1 in *; fold d; lia | lia].
      fold d. cbv zeta.
      destruct (Z.leb_spec (e2 + 10 - 52
                            + Z.max (d + Z.of_nat j2 - 1) (-1022 - e2 - 10)) 971) as [L3|L3];
        destruct (Z.leb_spec (e + 30 - 52 + Z.max (d + 0 - 1) (-1022 - e - 30)) 971) as [L0|L0];
        unfold j2, e2, j1, e1 in *; try lia.
      * f_equal; [f_equal|]; lia.
      * reflexivity.
    + rewrite SFmul_infinity_pow2.
      destruct (Z.leb_spec (e + 30 - 52 + Z.max (d + 0 - 1) (-1022 - e - 30)) 971) as [L0|L0];
        unfold j1, e1 in *; [lia | reflexivity].
  - rewrite !SFmul_infinity_pow2.
    destruct (Z.leb_spec (e + 30 - 52 + Z.max (d + 0 - 1) (-1022 - e - 30)) 971) as [L0|L0];
      [lia | reflexivity].
Qed.

(** The same on the primitive floats. *)
Lemma mul_1024_thrice (v : float) :
  (v * 1024 * 1024 * 1024 = v * 1073741824)%float.
Proof.
  apply Prim2SF_inj. rewrite !mul_spec.
  change (Prim2SF 1024) with (pow2 10). change (Prim2SF 1073741824) with (pow2 30).
  apply SFmul_1024_thrice, Prim2SF_valid.
Qed.

End FloatScaling.

Section FloatScalingCompose.

Lemma SFmul_pow2_pow2 x a b :
  valid_binary x = true → 1 ≤ a → 1 ≤ b → a + b ≤ 51 →
  SFmul prec emax (SFmul prec emax x (pow2 a)) (pow2 b)
  = SFmul prec emax x (pow2 (a + b)).
Proof.
  intros Hb Ha Hb' Hab. destruct x as [s|s| |s m e];
    try (cbn; now rewrite ?xorb_false_r).
  cbn in Hb.
  pose proof Hb as [Hc He]%bounded_spec.
  change m with (Pos.shiftl_nat m 0) at 1 2.
  change m with (Pos.shiftl_nat m 0) in Hb.
  set (d := Zpos (digits2_pos m)) in *.
  assert (Hd : 1 ≤ d) by (unfold d; lia).
  rewrite (SFmul_pow2_shifted s m 0 e (a + b)) by (assumption || lia).
  rewrite (SFmul_pow2_shifted s m 0 e a) by (assumption || lia).
  fold d. cbv zeta. change (Z.of_nat 0) with 0.
  destruct (Z.leb_spec (e + a - 52 + Z.max (d + 0 - 1) (-1022 - e - a)) 971) as [L1|L1].
  - match goal with |- context [S754_finite s (Pos.shiftl_nat m ?j) ?e'] =>
      set (j1 := j); set (e1 := e') end.
    rewrite (SFmul_pow2_shifted s m j1 e1 b);
      [|apply bounded_shifted; unfold j1, e1; fold d; lia | lia].
    fold d. cbv zeta.
    destruct (Z.leb_spec (e1 + b - 52
                          + Z.max (d + Z.of_nat j1 - 1) (-1022 - e1 - b)) 971) as [L2|L2];
      destruct (Z.leb_spec (e + (a + b) - 52
                            + Z.max (d + 0 - 1) (-1022 - e - (a + b))) 971) as [L0|L0];
      unfold j1, e1 in *; try lia.
    + f_equal; [f_equal|]; lia.
    + reflexivity.
  - rewrite SFmul_infinity_pow2.
    destruct (Z.leb_spec (e + (a + b) - 52
                          + Z.max (d + 0 - 1) (-1022 - e - (a + b))) 971) as [L0|L0];
      [lia | reflexivity].
Qed.

Lemma SFmul_pow2_valid x k :
  valid_binary x = true → 1 ≤ k ≤ 51 →
  valid_binary (SFmul prec emax x (pow2 k)) = true.
Proof.
  intros Hb Hk. destruct x as [s|s| |s m e]; try reflexivity.
  cbn in Hb. pose proof Hb as [Hc He]%bounded_spec.
  change m with (Pos.shiftl_nat m 0) at 1. change m with (Pos.shiftl_nat m 0) in Hb.
  rewrite (SFmul_pow2_shifted s m 0 e k) by (assumption || lia).
  cbv zeta. change (Z.of_nat 0) with 0.
  set (d := Zpos (digits2_pos m)) in *.
  assert (Hd : 1 ≤ d) by (unfold d; lia).
  destruct (Z.leb_spec (e + k - 52 + Z.max (d + 0 - 1) (-1022 - e - k)) 971);
    [|reflexivity].
  cbn. apply bounded_shifted; fold d; lia.
Qed.

(** Products of a binary64 number by powers of two compose. *)
Lemma mul_pow2_pow2 (v : float) (a b : Z) :
  1 ≤ a → 1 ≤ b → a + b ≤ 51 →
  SFmul prec emax (SFmul prec emax (Prim2SF v) (pow2 a)) (pow2 b)
  = SFmul prec emax (Prim2SF v) (pow2 (a + b)).
Proof. intros. apply SFmul_pow2_pow2; try assumption. apply Prim2SF_valid. Qed.

Lemma mul_1024_twice (v : float) : (v * 1024 * 1024 = v * 1048576)%float.
Proof.
  apply Prim2SF_inj. rewrite !mul_spec.
  change (Prim2SF 1024) with (pow2 10). change (Prim2SF 1048576) with (pow2 (10 + 10)).
  apply (mul_pow2_pow2 v 10 10); lia.
Qed.

Lemma mul_1024_four_times (v : float) :
  (v * 1024 * 1024 * 1024 * 1024 = v * 1099511627776)%float.
Proof.
  rewrite mul_1024_thrice.
  apply Prim2SF_inj. rewrite !mul_spec.
  change (Prim2SF 1024) with (pow2 10).
  change (Prim2SF 1073741824) with (pow2 30).
  change (Prim2SF 1099511627776) with (pow2 (10 + 30)).
  apply (mul_pow2_pow2 v 10 30); lia.
Qed.

End FloatScalingCompose.

(** ** The metric accumulator *)

Section Accumulator.

Implicit Types (m : MetricsContext) (name : string) (unit : StandardUnit).

Lemma AddMetric_first m name val unit now :
  Metrics m !! name = None →
  AddMetric m name val unit now
  = Ok {| OpName := OpName m;
          Metrics := <[name := {| Val := val; Unit := unit; Timestamp := now |}]>
                       (Metrics m) |}.
Proof. intros H. unfold AddMetric. now rewrite H. Qed.

Lemma AddMetric_again m name val unit now cur :
  Metrics m !! name = Some cur → Unit cur = unit →
  AddMetric m name val unit now
  = Ok {| OpName := OpName m;
          Metrics := <[name := {| Val := (Val cur + val)%float; Unit := unit;
                                  Timestamp := Timestamp cur |}]>
                       (Metrics m) |}.
Proof.
  intros H <-. unfold AddMetric. rewrite H.
  now rewrite String.eqb_refl.
Qed.

Lemma AddMetric_mismatch m name val unit now cur :
  Metrics m !! name = Some cur → Unit cur ≠ unit →
  AddMetric m name val unit now
  = Panic (VString ("inconsistent unit assignment, was " ++ Unit cur
                    ++ " want " ++ unit)).
Proof.
  intros H Hne. unfold AddMetric. rewrite H.
  apply String.eqb_neq in Hne. now rewrite Hne.
Qed.

Lemma AddMetric_other m m' name val unit now other :
  AddMetric m name val unit now = Ok m' → other ≠ name →
  Metrics m' !! other = Metrics m !! other.
Proof.
  unfold AddMetric. intros H Hne.
  destruct (Metrics m !! name) as [cur|].
  - destruct (PanicIfF _ _); [|discriminate].
    injection H as <-. simpl. now rewrite lookup_insert_ne.
  - injection H as <-. simpl. now rewrite lookup_insert_ne.
Qed.


(** C5: [Normalize] brings every unit to the smallest unit of its
    family, for every binary64 value [v]: the units with a prefix by
    the power of 1024 of the prefix (the chained multiplications by
    1024 of the code are one multiplication by that power), seconds by
    10^6 and milliseconds by 1000 to microseconds; the nine smallest
    units, count and percent among them, are returned as they are, with
    the value untouched.  These are all 27 units.  In particular
    gigabits/second go to bits/second by 1024^3 and kilobytes to bytes
    by 1024, and the three values of the specification come out
    exactly. *)
Theorem Normalize_scale_factors (v : float) (ts : Time) :
  Normalize {| Val := v; Unit := StandardUnitGigabitsSecond; Timestamp := ts |}
  = ((v * float_of_Z (1024 ^ 3))%float, StandardUnitBitsSecond)
  ∧ Normalize {| Val := v; Unit := StandardUnitKilobytes; Timestamp := ts |}
    = ((v * float_of_Z 1024)%float, StandardUnitBytes)
  ∧ Normalize {| Val := v; Unit := StandardUnitMilliseconds; Timestamp := ts |}
    = ((v * float_of_Z 1000)%float, StandardUnitMicroseconds)
  ∧ Normalize {| Val := v; Unit := StandardUnitCount; Timestamp := ts |}
    = (v, StandardUnitCount)
  ∧ Normalize {| Val := v; Unit := StandardUnitPercent; Timestamp := ts |}
    = (v, StandardUnitPercent)
  ∧ Normalize {| Val := 125; Unit := StandardUnitGigabitsSecond; Timestamp := ts |}
    = (float_of_Z (125 * 1024 ^ 3), StandardUnitBitsSecond)
  ∧ Normalize {| Val := 2; Unit := StandardUnitKilobytes; Timestamp := ts |}
    = (float_of_Z 2048, StandardUnitBytes)
  ∧ Normalize {| Val := 500; Unit := StandardUnitMilliseconds; Timestamp := ts |}
    = (float_of_Z 500000, StandardUnitMicroseconds)
  ∧ Forall (λ '(unit, j, base),
              Normalize {| Val := v; Unit := unit; Timestamp := ts |}
              = ((v * float_of_Z (1024 ^ j))%float, base)) prefixed_units
  ∧ Normalize {| Val := v; Unit := StandardUnitSeconds; Timestamp := ts |}
    = ((v * float_of_Z (10 ^ 6))%float, StandardUnitMicroseconds)
  ∧ Forall (λ unit,
              Normalize {| Val := v; Unit := unit; Timestamp := ts |}
              = (v, unit)) smallest_units.
Proof.
  split.
  { change (float_of_Z (1024 ^ 3)) with 1073741824%float.
    rewrite <- mul_1024_thrice. reflexivity. }
  do 7 (split; [reflexivity|]).
  split; [|split; [reflexivity|]].
  - unfold prefixed_units.
    repeat (apply Forall_cons; split;
            [first [ reflexivity
                   | change (float_of_Z (1024 ^ 2)) with 1048576%float;
                     rewrite <- mul_1024_twice; reflexivity
                   | change (float_of_Z (1024 ^ 3)) with 1073741824%float;
                     rewrite <- mul_1024_thrice; reflexivity
                   | change (float_of_Z (1024 ^ 4)) with 1099511627776%float;
                     rewrite <- mul_1024_four_times; reflexivity ]|]).
    apply Forall_nil. exact I.
  - unfold smallest_units.
    repeat (apply Forall_cons; split; [reflexivity|]).
    apply Forall_nil. exact I.
Qed.

End Accumulator.


(** ** The multi-value context *)

Section MultiValueContext.

Import multi.

Variable parent : value → value.

Lemma populate_stores_nil n i dataList (mp mp' : gmap value value) :
  (∀ k v, mp !! k = Some v → v = VNil) →
  populate n i dataList mp = Ok mp' →
  ∀ k v, mp' !! k = Some v → v = VNil.
Proof.
  revert i mp. induction n as [|n IH]; intros i mp Hmp; cbn [populate].
  - now intros [= <-].
  - unfold read, assign.
    destruct (hashable (index dataList (i * 2 + 1))); [|discriminate].
    destruct (hashable (index dataList (i * 2))); [|discriminate].
    apply IH. intros k v.
    destruct (decide (index dataList (i * 2) = k)) as [->|Hne].
    + rewrite lookup_insert_eq. intros [= <-].
      destruct (mp !! index dataList (i * 2 + 1)) as [x|] eqn:E; [|reflexivity].
      simpl. eapply Hmp, E.
    + rewrite lookup_insert_ne by assumption. apply Hmp.
Qed.

(** Whatever the argument list, no value of it reaches the context:
    every key that is present is bound to [nil]. *)
Lemma NewMultiValueContext_binds_nil dataList m key :
  NewMultiValueContext parent dataList = Ok m →
  hashable key = true →
  is_Some (data m !! key) → Value m key = Ok VNil.
Proof.
  unfold NewMultiValueContext. destruct (PanicIfF _ _); [|discriminate].
  destruct (populate _ 0 dataList ∅) as [mp|] eqn:E; [|discriminate].
  intros [= <-] Hk [v Hv]. unfold Value. cbn [data] in *. rewrite Hk, Hv.
  f_equal. eapply populate_stores_nil; [|exact E|exact Hv].
  intros k x. now rewrite lookup_empty.
Qed.

(** A key outside the data map is looked up in the parent. *)
Lemma Value_delegates m key :
  hashable key = true →
  data m !! key = None → Value m key = Ok (parent_Value m key).
Proof. intros Hk H. unfold Value. now rewrite Hk, H. Qed.

(** C10 fails on the code: [NewMultiValueContext(parent, "a", 1)]
    answers [Value("a")] with [nil], not with [1], and does not ask the
    parent either.  The loop reads the map under construction at the
    value, [mp[dataList[i*2+1]]], where the value itself was meant. *)
Theorem NewMultiValueContext_loses_the_values :
  ∃ m, NewMultiValueContext parent [VString "a"; VInt 1] = Ok m
       ∧ data m !! VString "a" = Some VNil
       ∧ Value m (VString "a") = Ok VNil
       ∧ Value m (VString "a") ≠ Ok (VInt 1).
Proof.
  exists {| parent_Value := parent; data := <[VString "a" := VNil]> ∅ |}.
  split; [reflexivity|].
  unfold Value. cbn [data hashable]. rewrite lookup_insert_eq.
  repeat split; discriminate.
Qed.

End MultiValueContext.

(** ** The process registry *)

Section Registry.

Import registry.

Implicit Types (p : ProcessRegistry) (pc : ProcessContext).

Lemma prepareRun_taken pc p other :
  processes p !! Name pc = Some other → prepareRun pc p = (false, p).
Proof. intros H. unfold prepareRun. now rewrite H. Qed.

Lemma prepareRun_free pc p :
  processes p !! Name pc = None →
  ∃ p', prepareRun pc p = (true, p')
        ∧ processes p' = <[Name pc := pc]> (processes p)
        ∧ runningGroups p' = runningGroups p + 1
        ∧ goroutines p' = goroutines p.
Proof. intros H. unfold prepareRun. rewrite H. eexists. repeat split. Qed.

Lemma finish_deregisters pc p :
  processes (snd (finish pc p)) = delete (Name pc) (processes p).
Proof.
  unfold finish, markDone, close. cbn [runningGroups closed].
  repeat (case_match; simplify_eq; cbn [processes snd]); reflexivity.
Qed.

Lemma finish_keeps_goroutines pc p :
  goroutines (snd (finish pc p)) = goroutines p.
Proof.
  unfold finish, markDone, close. cbn [runningGroups closed].
  repeat (case_match; simplify_eq; cbn [goroutines snd]); reflexivity.
Qed.

(** C6: while [first] is registered under the name of [pc], [TryRun]
    on [pc] returns false and [Run] on [pc] panics, the registry being
    in both cases the one before the call, entry for entry and counter
    for counter, with no goroutine added; once the goroutine of [first]
    has ended (which deregisters the name), [TryRun] on [pc] returns
    true, [pc] is the registered process and its goroutine is spawned. *)
Theorem duplicate_registration_fails pc first p (proc : Context → M value) :
  processes p !! Name pc = Some first →
  Name first = Name pc →
  TryRun pc proc p = (false, p)
  ∧ Run pc proc p
    = (Panic (VString ("There's already a process named: " ++ Name pc)), p)
  ∧ ∃ p', TryRun pc proc (snd (finish first p)) = (true, p')
          ∧ processes p' !! Name pc = Some pc
          ∧ HasProcess p' (Name pc) = true
          ∧ goroutines p'
            = (goroutines p
               ++ [{| g_pc := pc; g_period := None; g_proc := proc |}])%list.
Proof.
  intros Hreg Hname.
  assert (Htry : TryRun pc proc p = (false, p)).
  { unfold TryRun. now rewrite (prepareRun_taken _ _ _ Hreg). }
  split; [exact Htry|]. split.
  - unfold Run. now rewrite Htry.
  - destruct (prepareRun_free pc (snd (finish first p))) as (p' & Hp & Hm & _ & Hg).
    { rewrite finish_deregisters, Hname. apply lookup_delete_eq. }
    eexists. unfold TryRun. rewrite Hp. cbn [negb]. split; [reflexivity|].
    unfold HasProcess, go. cbn [processes goroutines].
    rewrite Hm, lookup_insert_eq, Hg, finish_keeps_goroutines.
    repeat split.
Qed.

(** The call of [RunPeriodicProcess] on a registered name: it has no
    way to fail, and the goroutine is spawned all the same. *)
Lemma RunPeriodicProcess_taken pc first p period (proc : Context → M value) :
  processes p !! Name pc = Some first →
  RunPeriodicProcess pc period proc p
  = go {| g_pc := pc; g_period := Some period; g_proc := proc |} p.
Proof.
  intros H. unfold RunPeriodicProcess. now rewrite (prepareRun_taken _ _ _ H).
Qed.

End Registry.

(** The theorem of C6 at the registry in which [proc1] runs. *)
Lemma duplicate_registration_fails_witness :
  registry.TryRun second_proc1 idle proc1_running = (false, proc1_running)
  ∧ registry.Run second_proc1 idle proc1_running
    = (Panic (VString ("There's already a process named: "
                       ++ registry.Name second_proc1)), proc1_running)
  ∧ ∃ p', registry.TryRun second_proc1 idle
            (snd (registry.finish first_proc1 proc1_running)) = (true, p')
          ∧ registry.processes p' !! registry.Name second_proc1
            = Some second_proc1
          ∧ registry.HasProcess p' (registry.Name second_proc1) = true
          ∧ registry.goroutines p'
            = (registry.goroutines proc1_running
               ++ [{| registry.g_pc := second_proc1; registry.g_period := None;
                      registry.g_proc := idle |}])%list.
Proof.
  apply (duplicate_registration_fails second_proc1 first_proc1 proc1_running idle).
  - vm_compute. reflexivity.
  - reflexivity.
Defined.

(** C3 fails on the code.  With [proc1] running, [RunPeriodicProcess]
    for a second context of that name returns as on a free name and
    spawns a second goroutine for [proc1]; the registry still counts one
    process.  When the root context is cancelled and the periodic
    goroutine ends, it deregisters [proc1] and takes the wait group to
    zero although the first goroutine is still there, and the end of
    that one then panics in [markDone]. *)
Theorem RunPeriodicProcess_ignores_taken_name :
  let p := registry.RunPeriodicProcess second_proc1 10000000 idle proc1_running in
  map registry.g_pc (registry.goroutines p) = [first_proc1; second_proc1]
  ∧ map registry.g_period (registry.goroutines p) = [None; Some 10000000]
  ∧ registry.runningGroups p = 1
  ∧ registry.processes p !! "proc1" = Some first_proc1
  ∧ let '(r, p') := registry.finish second_proc1 (registry.cancel p) in
    r = Ok tt
    ∧ registry.HasProcess p' "proc1" = false
    ∧ registry.runningGroups p' = 0
    ∧ fst (registry.finish first_proc1 p')
      = Panic (VString "sync: negative WaitGroup counter").
Proof.
  cbv zeta.
  rewrite (RunPeriodicProcess_taken second_proc1 first_proc1)
    by (vm_compute; reflexivity).
  repeat split; vm_compute; reflexivity.
Qed.

(** ** The instrumented execution wrapper *)

Section Wrapper.

Implicit Types (w : World) (met : nat).

Lemma bind_Ok {A B} (m : M A) (k : A → M B) w a w' :
  m w = (Ok a, w') → (m ≫= k) w = k a w'.
Proof. intros H. unfold mbind, M_bind. now rewrite H. Qed.

Lemma bind_Panic {A B} (m : M A) (k : A → M B) w p w' :
  m w = (Panic p, w') → (m ≫= k) w = (Panic p, w').
Proof. intros H. unfold mbind, M_bind. now rewrite H. Qed.

Lemma deref_store met m w : deref met (store met m w) = m.
Proof. unfold deref, store. cbn [heap]. now rewrite lookup_insert_eq. Qed.

Lemma now_store met m w : now (store met m w) = now w.
Proof. reflexivity. Qed.

Lemma met_AddCount_first met name v w :
  Metrics (deref met w) !! name = None →
  met_AddCount met name v w
  = (Ok tt,
     store met {| OpName := OpName (deref met w);
                  Metrics := <[name := {| Val := v; Unit := StandardUnitCount;
                                          Timestamp := now w |}]>
                               (Metrics (deref met w)) |} w).
Proof.
  intros H. unfold met_AddCount, AddCount. now rewrite AddMetric_first.
Qed.

Lemma met_AddCount_again met name v w cur :
  Metrics (deref met w) !! name = Some cur → Unit cur = StandardUnitCount →
  met_AddCount met name v w
  = (Ok tt,
     store met {| OpName := OpName (deref met w);
                  Metrics := <[name := {| Val := (Val cur + v)%float;
                                          Unit := StandardUnitCount;
                                          Timestamp := Timestamp cur |}]>
                               (Metrics (deref met w)) |} w).
Proof.
  intros H Hu. unfold met_AddCount, AddCount.
  now rewrite (AddMetric_again _ _ _ _ _ _ H Hu).
Qed.

Lemma Done_first t w :
  Metrics (deref (tm_parent t) w) !! tm_name t = None →
  ∃ e, Done t w
       = (Ok tt,
          store (tm_parent t)
            {| OpName := OpName (deref (tm_parent t) w);
               Metrics := <[tm_name t := e]> (Metrics (deref (tm_parent t) w)) |} w).
Proof.
  intros H. unfold Done, met_AddDuration, AddDuration.
  rewrite AddMetric_first by assumption. eexists. reflexivity.
Qed.

End Wrapper.

Section InstrumentWithMetrics.

Variables (ctx : Context) (fn : Context → M value) (met : nat)
          (opName : string) (w : World).

Hypothesis scope : metricsKey ctx = Some met.
Hypothesis fresh : heap w !! met = Some (NewMetricsContext opName).
Hypothesis frame : leaves_wrapper_metrics met (fn ctx) (world_at_body met w).

Let count (v : float) : MetricEntry :=
  {| Val := v; Unit := StandardUnitCount; Timestamp := now w |}.

Let counters : gmap string MetricEntry :=
  <["Fault" := count 1]> (<["Error" := count 0]> (<["Success" := count 0]> ∅)).

Lemma deref_fresh : deref met w = NewMetricsContext opName.
Proof. unfold deref. now rewrite fresh. Qed.

Lemma counters_set :
  ∃ wa wb,
    met_AddCount met "Success" 0 w = (Ok tt, wa)
    ∧ met_AddCount met "Error" 0 wa = (Ok tt, wb)
    ∧ met_AddCount met "Fault" 1 wb = (Ok tt, world_at_body met w)
    ∧ now (world_at_body met w) = now w
    ∧ Metrics (deref met (world_at_body met w)) = counters.
Proof.
  assert (H1 := met_AddCount_first met "Success" 0 w).
  rewrite deref_fresh in H1. cbn [NewMetricsContext Metrics OpName] in H1.
  specialize (H1 (lookup_empty _)).
  match type of H1 with _ = (_, store _ ?m _) => set (ma := m) in * end.
  set (wa := store met ma w) in *.
  assert (Ha : deref met wa = ma) by apply deref_store.
  assert (H2 := met_AddCount_first met "Error" 0 wa).
  rewrite Ha in H2. cbn [ma Metrics OpName] in H2.
  rewrite lookup_insert_ne, lookup_empty in H2 by discriminate.
  specialize (H2 eq_refl).
  match type of H2 with _ = (_, store _ ?m _) => set (mb := m) in * end.
  set (wb := store met mb wa) in *.
  assert (Hb : deref met wb = mb) by apply deref_store.
  assert (H3 := met_AddCount_first met "Fault" 1 wb).
  rewrite Hb in H3. cbn [mb Metrics OpName] in H3.
  rewrite !lookup_insert_ne, lookup_empty in H3 by discriminate.
  specialize (H3 eq_refl).
  assert (Hw : world_at_body met w = snd (met_AddCount met "Fault" 1 wb)).
  { unfold world_at_body.
    now rewrite (bind_Ok _ _ _ _ _ H1), (bind_Ok _ _ _ _ _ H2). }
  exists wa, wb. split; [exact H1|]. split; [exact H2|].
  split; [rewrite Hw, H3; reflexivity|].
  rewrite Hw, H3. cbn [snd]. rewrite deref_store. split; reflexivity.
Qed.

Lemma body_lookups r wf name :
  fn ctx (world_at_body met w) = (r, wf) →
  In name wrapper_metrics →
  Metrics (deref met wf) !! name = counters !! name.
Proof.
  intros Hfn Hin. pose proof (frame name Hin) as H.
  rewrite Hfn in H. cbn [snd] in H. rewrite H.
  now destruct counters_set as (_ & _ & _ & _ & _ & _ & ->).
Qed.

Ltac wrapper_metric := simpl; tauto.

Ltac lookups Hfn :=
  repeat first
    [ rewrite deref_store
    | progress cbn [Metrics OpName]
    | rewrite lookup_insert_eq
    | rewrite lookup_insert_ne by discriminate
    | rewrite (body_lookups _ _ _ Hfn) by wrapper_metric
    | progress unfold counters ].

(** C1, amended: on a scope whose accumulator is fresh, and for a body
    whose run leaves the wrapper's own entries ([Success], [Error],
    [Fault], [Time]) as they are, whatever else it records and whatever
    accumulators it makes for itself, the wrapper invokes the body
    with [Success=0, Error=0, Fault=1] set; it ends as the body ends
    (the same error returned, the same panic raised), and the counts
    are then [1, 0, 0] when the body returned nil, [0, 1, 0] when it
    returned an error and [0, 0, 1] when it panicked. *)
Theorem InstrumentWithMetrics_classifies r wf :
  fn ctx (world_at_body met w) = (r, wf) →
  counts met (world_at_body met w) = (0, 0, 1)%float
  ∧ ∃ w', InstrumentWithMetrics ctx fn w = (r, w')
          ∧ counts met w' = match r with
                            | Ok VNil => (1, 0, 0)%float
                            | Ok _ => (0, 1, 0)%float
                            | Panic _ => (0, 0, 1)%float
                            end.
Proof.
  intros Hfn.
  destruct counters_set as (wa & wb & H1 & H2 & H3 & Hnow & Hm).
  split.
  { unfold counts, GetMetricVal, GetMetric. rewrite Hm. lookups Hfn. reflexivity. }
  assert (Hget : lift (GetMetricsFromContext ctx) w = (Ok met, w)).
  { unfold lift, GetMetricsFromContext. now rewrite scope. }
  unfold InstrumentWithMetrics.
  rewrite (bind_Ok _ _ _ _ _ Hget), (bind_Ok _ _ _ _ _ H1),
    (bind_Ok _ _ _ _ _ H2), (bind_Ok _ _ _ _ _ H3).
  erewrite bind_Ok by reflexivity.
  unfold defer.
  destruct r as [err|p].
  - (* the body returned *)
    rewrite (bind_Ok _ _ _ _ _ Hfn).
    erewrite bind_Ok; cycle 1.
    { eapply met_AddCount_again; [lookups Hfn; reflexivity | reflexivity]. }
    destruct (decide (err = VNil)) as [->|Herr].
    + erewrite bind_Ok; cycle 1.
      { eapply met_AddCount_again; [lookups Hfn; reflexivity | reflexivity]. }
      edestruct Done_first as [e He]; cycle 1.
      { unfold mret, M_ret. rewrite He. eexists. split; [reflexivity|].
        unfold counts, GetMetricVal, GetMetric. lookups Hfn. reflexivity. }
      lookups Hfn. reflexivity.
    + erewrite bind_Ok; cycle 1.
      { eapply met_AddCount_again; [lookups Hfn; reflexivity | reflexivity]. }
      edestruct Done_first as [e He]; cycle 1.
      { unfold mret, M_ret. rewrite He. eexists. split; [reflexivity|].
        unfold counts, GetMetricVal, GetMetric. lookups Hfn.
        destruct err; [congruence|reflexivity..]. }
      lookups Hfn. reflexivity.
  - (* the body panicked *)
    rewrite (bind_Panic _ _ _ _ _ Hfn).
    edestruct Done_first as [e He]; cycle 1.
    { rewrite He. eexists. split; [reflexivity|].
      unfold counts, GetMetricVal, GetMetric. lookups Hfn. reflexivity. }
    lookups Hfn. reflexivity.
Qed.

End InstrumentWithMetrics.

Lemma scoped_body_leaves_wrapper_metrics e :
  leaves_wrapper_metrics 0 (scoped_body e scope_with_metrics)
    (world_at_body 0 fresh_world).
Proof.
  intros name [<-|[<-|[<-|[<-|[]]]]]; vm_compute; reflexivity.
Qed.

(** The theorem of C1 at a body that opens a metrics scope of its own,
    counts there, and returns an error. *)
Lemma InstrumentWithMetrics_classifies_witness :
  counts 0 (world_at_body 0 fresh_world) = (0, 0, 1)%float
  ∧ ∃ w', InstrumentWithMetrics scope_with_metrics
            (scoped_body (Errorf "bad error")) fresh_world
          = (Ok (Errorf "bad error"), w')
          ∧ counts 0 w' = (0, 1, 0)%float.
Proof.
  exact (InstrumentWithMetrics_classifies scope_with_metrics
           (scoped_body (Errorf "bad error")) 0 "op" fresh_world
           eq_refl eq_refl (scoped_body_leaves_wrapper_metrics _)
           (Ok (Errorf "bad error"))
           (snd (scoped_body (Errorf "bad error") scope_with_metrics
                   (world_at_body 0 fresh_world)))
           eq_refl).
Defined.

(** The three outcomes, computed. *)
Example InstrumentWithMetrics_returns_nil :
  let '(r, w') := InstrumentWithMetrics scope_with_metrics idle fresh_world in
  r = Ok VNil ∧ counts 0 w' = (1, 0, 0)%float.
Proof. vm_compute. split; reflexivity. Qed.

Example InstrumentWithMetrics_returns_error :
  let '(r, w') := InstrumentWithMetrics scope_with_metrics
                    (failing_body (Errorf "bad error")) fresh_world in
  r = Ok (Errorf "bad error") ∧ counts 0 w' = (0, 1, 0)%float.
Proof. vm_compute. split; reflexivity. Qed.

Example InstrumentWithMetrics_panics :
  let '(r, w') := InstrumentWithMetrics scope_with_metrics
                    (panicking_body (VString "Hello")) fresh_world in
  r = Panic (VString "Hello") ∧ counts 0 w' = (0, 0, 1)%float.
Proof. vm_compute. split; reflexivity. Qed.

(** A body that writes to a counter of the wrapper is outside the
    theorem: the counts then reflect both. *)
Example InstrumentWithMetrics_body_interferes :
  let body : Context → M value :=
    λ ctx, met_AddCount 0 "Success" 5;; mret VNil in
  counts 0 (snd (InstrumentWithMetrics scope_with_metrics body fresh_world))
  = (6, 0, 0)%float.
Proof. vm_compute. reflexivity. Qed.

Section RunInstrumented.

Context `{Utils}.

Implicit Types (w : World) (ctx : Context) (fn : Context → M value).

Lemma defer_Ok {A} (d : M unit) (body : M A) w r w' w'' :
  body w = (r, w') → d w' = (Ok tt, w'') → defer d body w = (r, w'').
Proof. intros Hb Hd. unfold defer. now rewrite Hb, Hd. Qed.

Lemma emit_spec e w :
  ∃ w', emit e w = (Ok tt, w')
        ∧ events w' = (events w ++ e)%list ∧ callers w' = callers w
        ∧ heap w' = heap w ∧ now w' = now w.
Proof. eexists. repeat split. Qed.

Lemma CopyToSpan_spec met span w :
  ∃ e w', CopyToSpan met span w = (Ok tt, w')
          ∧ events w' = (events w ++ e)%list ∧ callers w' = callers w
          ∧ heap w' = heap w.
Proof.
  unfold CopyToSpan.
  edestruct emit_spec as (w' & -> & He & Hc & Hh & _). eauto 10.
Qed.

Lemma CopyToStatsd_spec met client clientType w :
  ∃ e w', CopyToStatsd met client clientType w = (Ok tt, w')
          ∧ events w' = (events w ++ e)%list ∧ callers w' = callers w
          ∧ heap w' = heap w.
Proof.
  unfold CopyToStatsd.
  edestruct emit_spec as (w' & -> & He & Hc & Hh & _). eauto 10.
Qed.

(** The part of [RunInstrumented] before the body: with a logger in
    the scope it cannot fail; it starts the span, tags it, and derives
    the scope of the body, with a logger and a fresh accumulator. *)
Lemma RunInstrumented_entry ctx name fn w l :
  loggerKey ctx = Some l →
  ∃ span c met w1,
    RunInstrumented ctx name fn w
    = recovering span
        (defer (CopyToStatsd met (GetStatsdFromContext ctx)
                  (GetClientTypeFromContext ctx))
           (defer (CopyToSpan met span) (fn c))) w1
    ∧ metricsKey c = Some met
    ∧ heap w1 !! met = Some (NewMetricsContext name)
    ∧ is_Some (loggerKey c)
    ∧ activeSpan c = Some span.
Proof.
  intros Hl. unfold RunInstrumented, CL. rewrite Hl.
  do 4 eexists. split; [reflexivity|].
  cbn. rewrite lookup_insert_eq. eauto.
Qed.

(** A panic with a payload other than [nil] is annotated on the span
    and raised again: the stack rendering goes to [error.stack], the
    formatted payload to [panic], the span is finished with the
    [gopanic] error, and the outcome is the panic with its payload. *)
Lemma recovering_reraises span (body : M value) w p w' :
  body w = (Panic p, w') → p ≠ VNil →
  ∃ w'', recovering span body w = (Panic p, w'')
         ∧ events w''
           = (events w'
              ++ [SetTag span ext_ErrorStack
                    (TagString (StringStack
                       {| skipToFirstPanic := true;
                          stack := runtime_Callers 3 (callers w');
                          msg := Sprintf_v p |}));
                  SetTag span "panic" (TagString (Sprintf_v p));
                  Finish span (Errorf ("gopanic: " ++ Sprintf_v p))])%list.
Proof.
  intros Hb Hp. unfold recovering. rewrite Hb.
  destruct (decide (p ≠ VNil)); [|contradiction].
  eexists. split; reflexivity.
Qed.

(** A panic with the payload [nil] ends there: the span is finished as
    a success and the call returns [nil]. *)
Lemma recovering_swallows_nil span (body : M value) w w' :
  body w = (Panic VNil, w') →
  ∃ w'', recovering span body w = (Ok VNil, w'')
         ∧ events w'' = (events w' ++ [Finish span VNil])%list.
Proof.
  intros Hb. unfold recovering. rewrite Hb.
  destruct (decide (VNil ≠ VNil)); [contradiction|].
  eexists. split; reflexivity.
Qed.

Lemma body_with_defers met span client clientType (f : M value) w r wf :
  f w = (r, wf) →
  ∃ copied w',
    defer (CopyToStatsd met client clientType) (defer (CopyToSpan met span) f) w
    = (r, w')
    ∧ events w' = (events wf ++ copied)%list ∧ callers w' = callers wf.
Proof.
  intros Hf.
  destruct (CopyToSpan_spec met span wf) as (e1 & w1 & H1 & He1 & Hc1 & _).
  destruct (CopyToStatsd_spec met client clientType w1)
    as (e2 & w2 & H2 & He2 & Hc2 & _).
  exists (e1 ++ e2)%list, w2. split.
  - eapply defer_Ok; [eapply defer_Ok; eassumption | eassumption].
  - rewrite He2, He1, Hc2, Hc1, app_assoc. split; reflexivity.
Qed.

(** [RunInstrumented] on a body that panics with a payload other than
    [nil]: the panic comes out with the same payload, after the three
    calls on the span. *)
Lemma RunInstrumented_reraises ctx name fn w l p :
  loggerKey ctx = Some l →
  (∀ c w0, fst (fn c w0) = Panic p) →
  p ≠ VNil →
  ∃ span c w1 copied w',
    RunInstrumented ctx name fn w = (Panic p, w')
    ∧ let wf := snd (fn c w1) in
      events w'
      = (events wf ++ copied
         ++ [SetTag span ext_ErrorStack
               (TagString (StringStack
                  {| skipToFirstPanic := true;
                     stack := runtime_Callers 3 (callers wf);
                     msg := Sprintf_v p |}));
             SetTag span "panic" (TagString (Sprintf_v p));
             Finish span (Errorf ("gopanic: " ++ Sprintf_v p))])%list.
Proof.
  intros Hl Hfn Hp.
  destruct (RunInstrumented_entry ctx name fn w l Hl)
    as (span & c & met & w1 & -> & _).
  destruct (fn c w1) as [r wf] eqn:Ef.
  assert (r = Panic p) as -> by (specialize (Hfn c w1); now rewrite Ef in Hfn).
  destruct (body_with_defers met span (GetStatsdFromContext ctx)
              (GetClientTypeFromContext ctx) (fn c) w1 _ _ Ef)
    as (copied & w2 & Hb & He & Hc).
  destruct (recovering_reraises span _ w1 p w2 Hb Hp) as (w3 & Hr & He3).
  exists span, c, w1, copied, w3. split; [exact Hr|].
  rewrite Ef. cbn [snd]. now rewrite He3, He, Hc, app_assoc.
Qed.

(** C2 fails on the code for the payload [nil]: [recover()] then
    returns [nil] as it does without a panic, so the handler takes the
    branch of a normal return; the panic is not raised again, the span
    is finished without error and the caller is handed a [nil] error. *)
Theorem RunInstrumented_swallows_nil_panic :
  ∃ span w',
    RunInstrumented root "test1" (panicking_body VNil) fresh_world = (Ok VNil, w')
    ∧ events w'
      = [StartSpan span "test1" "background";
         SetTag span ext_ResourceName (TagString "test1");
         SetTag span ClientTypeTag (TagString "normal");
         SetOperationName span "test1";
         Finish span VNil].
Proof. do 2 eexists. split; vm_compute; reflexivity. Qed.

(** The same call with the payload ["bad panic"]. *)
Example RunInstrumented_bad_panic :
  ∃ span w',
    RunInstrumented root "test1" (panicking_body (VString "bad panic"))
      fresh_world = (Panic (VString "bad panic"), w')
    ∧ events w'
      = [StartSpan span "test1" "background";
         SetTag span ext_ResourceName (TagString "test1");
         SetTag span ClientTypeTag (TagString "normal");
         SetOperationName span "test1";
         SetTag span ext_ErrorStack (TagString "");
         SetTag span "panic" (TagString "bad panic");
         Finish span (Errorf "gopanic: bad panic")].
Proof. do 2 eexists. split; vm_compute; reflexivity. Qed.

End RunInstrumented.

(** C1, as stated for every body, fails: a body that itself runs an
    operation under [InstrumentWithMetrics] in the same scope shares the
    accumulator, and the counts add up.  Both calls return nil, and
    [Success] is 2. *)
Lemma nested_InstrumentWithMetrics_counts_twice :
  let body : Context → M value := λ ctx, InstrumentWithMetrics ctx idle in
  ∃ w', InstrumentWithMetrics scope_with_metrics body fresh_world = (Ok VNil, w')
        ∧ counts 0 w' = (2, 0, 0)%float
        ∧ counts 0 w' ≠ (1, 0, 0)%float.
Proof.
  cbv zeta. eexists. split; [vm_compute; reflexivity|].
  split; [vm_compute; reflexivity|].
  intros E. apply (f_equal (λ c, PrimFloat.eqb (fst (fst c)) 1)) in E.
  vm_compute in E. discriminate E.
Qed.

(** * Further properties *)

(** ** The stack capturer: both renderings, bounds, degenerate frames *)

Section Renderings.

Lemma concat_cons (x : string) (l : list string) :
  String.concat "" (x :: l) = x ++ String.concat "" l.
Proof. destruct l; cbn [String.concat]; [now rewrite string_app_nil_r | reflexivity]. Qed.

Lemma concat_app (l1 l2 : list string) :
  String.concat "" (l1 ++ l2) = String.concat "" l1 ++ String.concat "" l2.
Proof.
  induction l1 as [|x l1 IH]; [reflexivity|].
  change ((x :: l1) ++ l2)%list with (x :: (l1 ++ l2))%list.
  now rewrite !concat_cons, IH, string_app_assoc.
Qed.

Lemma line_of_render frame : line_of frame = render (element_of frame).
Proof.
  unfold line_of, render, element_of. destruct (parseFrame frame) as [[path line] label].
  cbn [Fl Fn]. unfold newline. now rewrite !string_app_assoc.
Qed.

Lemma JSONStack_loop_acc frames k acc :
  JSONStack_loop frames k acc = (acc ++ JSONStack_loop frames k [])%list.
Proof.
  revert k acc. induction frames as [|f frames IH]; intros k acc.
  - cbn. now rewrite app_nil_r.
  - cbn [JSONStack_loop].
    destruct ((0 <? k) && is_gopanic f); [apply IH|].
    destruct (0 <? k); [apply IH|].
    rewrite (IH k (acc ++ [element_of f])%list), (IH k ([] ++ [element_of f])%list).
    now rewrite app_assoc.
Qed.

Lemma StringStack_loop_JSONStack_loop frames k res :
  StringStack_loop frames k res
  = res ++ String.concat "" (map render (JSONStack_loop frames k [])).
Proof.
  revert k res. induction frames as [|f frames IH]; intros k res.
  - cbn. now rewrite string_app_nil_r.
  - cbn [JSONStack_loop StringStack_loop].
    destruct ((0 <? k) && is_gopanic f); [apply IH|].
    destruct (0 <? k); [apply IH|].
    rewrite IH, (JSONStack_loop_acc frames k ([] ++ [element_of f])%list).
    rewrite map_app, concat_app.
    cbn [app map String.concat]. now rewrite line_of_render, string_app_assoc.
Qed.

(** X1: the two renderings of a stack trace agree: [StringStack] is the
    concatenation of the lines [Fl Fn] of the elements of [JSONStack],
    in the same order, whatever the stack and the flag. *)
Theorem StringStack_is_JSONStack_rendered (s : ShortenedStackTrace) :
  StringStack s = String.concat "" (map render (JSONStack s)).
Proof.
  unfold StringStack, JSONStack. rewrite StringStack_loop_JSONStack_loop.
  reflexivity.
Qed.

Lemma JSONStack_loop_length frames k :
  (length (JSONStack_loop frames k []) ≤ length frames)%nat.
Proof.
  revert k. induction frames as [|f frames IH]; intros k; [cbn; lia|].
  cbn [JSONStack_loop length].
  destruct ((0 <? k) && is_gopanic f); [specialize (IH (k - 1)); lia|].
  destruct (0 <? k); [specialize (IH k); lia|].
  rewrite JSONStack_loop_acc, length_app. specialize (IH k). cbn [length app]. lia.
Qed.

Lemma length_visited frames : length (visited frames) = (length frames - 1)%nat.
Proof.
  unfold visited. induction frames as [|f [|g frames] IH]; try reflexivity.
  cbn [removelast length] in *. rewrite IH. lia.
Qed.

(** X2: a captured trace holds at most 40 frames and renders to at
    most 39 elements (the outermost frame is never rendered); when
    [skipFrames] is not below the depth of the goroutine's stack the
    capture is empty and both renderings are empty.  The capture fails
    only when the conversion of the message does. *)
Theorem captured_trace_bounds (skipFrames : Z) (flag : bool) (m : value)
    (goroutine : list Frame) :
  match NewShortenedStackTrace skipFrames flag m goroutine with
  | Ok s =>
      (length (stack s) ≤ 40)%nat
      ∧ (length (JSONStack s) ≤ 39)%nat
      ∧ (Z.of_nat (length goroutine) ≤ skipFrames →
         stack s = [] ∧ JSONStack s = [] ∧ StringStack s = "")
  | Panic p => convertPanicMsg m = Panic p
  end.
Proof.
  unfold NewShortenedStackTrace, runtime_Callers.
  destruct (convertPanicMsg m) as [text|p]; [|reflexivity].
  set (frames := firstn 40 (skipn (Z.to_nat skipFrames) goroutine)).
  assert (Hl : (length frames ≤ 40)%nat) by apply firstn_le_length.
  split; [exact Hl|]. split.
  - unfold JSONStack. cbn [stack].
    etransitivity; [apply JSONStack_loop_length|]. rewrite length_visited. lia.
  - intros Hskip.
    assert (frames = []) as ->.
    { unfold frames. rewrite skipn_all2 by lia. reflexivity. }
    repeat split; now destruct flag.
Qed.

Lemma after_last_panic_loop frames acc :
  JSONStack_loop frames (panics_in frames) acc
  = (acc ++ map element_of (after_last_panic frames))%list.
Proof.
  revert acc. induction frames as [|f frames IH]; intros acc.
  - cbn. now rewrite app_nil_r.
  - rewrite panics_in_cons. cbn [JSONStack_loop after_last_panic].
    assert (0 ≤ panics_in frames) by (unfold panics_in; lia).
    destruct (Z.ltb_spec 0 (panics_in frames)) as [Hp|Hp].
    + destruct (is_gopanic f).
      * replace (0 <? 1 + panics_in frames) with true by (symmetry; apply Z.ltb_lt; lia).
        cbn [andb]. replace (1 + panics_in frames - 1) with (panics_in frames) by lia.
        apply IH.
      * replace (0 <? 0 + panics_in frames) with true by (symmetry; apply Z.ltb_lt; lia).
        cbn [andb]. apply IH.
    + assert (E : panics_in frames = 0) by lia. rewrite E.
      destruct (is_gopanic f).
      * change (0 <? 1 + 0) with true. change (1 + 0 - 1) with 0. cbn [andb].
        apply JSONStack_loop_render.
      * change (0 <? 0 + 0) with false. change (0 + 0) with 0. cbn [andb].
        rewrite JSONStack_loop_render, <- app_assoc. reflexivity.
Qed.

(** X3: what is rendered, for every stack: without [skipToFirstPanic]
    all visited frames; with it, the visited frames after the last
    [runtime.gopanic] frame, and all of them when there is no such
    frame.  The rendered frames are a suffix of the visited ones in
    both cases. *)
Theorem JSONStack_characterised (s : ShortenedStackTrace) :
  JSONStack s
  = map element_of (if skipToFirstPanic s
                    then after_last_panic (visited (stack s))
                    else visited (stack s))
  ∧ ∃ hidden, visited (stack s) = (hidden ++ (if skipToFirstPanic s
                                               then after_last_panic (visited (stack s))
                                               else visited (stack s)))%list.
Proof.
  split.
  - unfold JSONStack. destruct (skipToFirstPanic s).
    + unfold countPanics. rewrite countPanics_loop_scans_all, Z.add_0_l.
      now rewrite after_last_panic_loop.
    + apply JSONStack_loop_render.
  - destruct (skipToFirstPanic s); [|now exists []].
    generalize (visited (stack s)) as frames.
    induction frames as [|f frames [hidden IH]]; [now exists []|].
    cbn [after_last_panic]. destruct (0 <? panics_in frames).
    + exists (f :: hidden). cbn [app]. now rewrite <- IH.
    + destruct (is_gopanic f); [now exists [f] | now exists []].
Qed.

End Renderings.

(** The theorem of X2 at a stack of two frames of which two are
    skipped. *)
Lemma captured_trace_bounds_witness :
  ∃ s, NewShortenedStackTrace 2 true (VString "boom")
         [example_frame 10; example_frame 20] = Ok s
       ∧ stack s = [] ∧ JSONStack s = [] ∧ StringStack s = "".
Proof.
  eexists. split; [reflexivity|].
  exact (proj2 (proj2 (captured_trace_bounds 2 true (VString "boom")
                         [example_frame 10; example_frame 20]))
           (Z.le_refl 2)).
Defined.

Section DegenerateFrames.

Import strings.

Lemma LastIndex_split (c : ascii) (s : string) :
  LastIndex s c ≠ -1 →
  ∃ a b, s = a ++ String c b ∧ Count b c = 0 ∧ LastIndex s c = len a.
Proof.
  induction s as [|x s IH]; [now cbn|].
  cbn [LastIndex]. destruct (Z.eqb_spec (LastIndex s c) (-1)) as [E|E].
  - destruct (Ascii.eqb_spec x c) as [->|Hx]; [intros _|congruence].
    exists "", s. repeat split.
    destruct (Z.eq_dec (Count s c) 0) as [H0|H0]; [exact H0|].
    pose proof (Count_nonneg c s).
    destruct (Count_split c s) as (a & b & -> & Hb & _); [lia|].
    rewrite LastIndex_last in E by assumption. pose proof (len_nonneg a). lia.
  - intros _. destruct (IH E) as (a & b & -> & Hb & Hl).
    exists (String x a), b. rewrite string_app_cons. repeat split; [assumption|].
    rewrite Hl. unfold len. cbn [String.length]. lia.
Qed.

Lemma take_take k i s : (k ≤ i)%nat → take k (take i s) = take k s.
Proof.
  revert k i. induction s as [|x s IH]; intros [|k] [|i] Hk; try reflexivity; try lia.
  cbn [take]. f_equal. apply IH. lia.
Qed.

(** A path with fewer separators than rounds: the loop leaves at -1. *)
Lemma strip_short n path i :
  0 ≤ i ≤ len path →
  Count (slice_to path i) "/" < Z.of_nat n →
  strip n path i = -1.
Proof.
  revert i. induction n as [|n IH]; intros i Hi Hc.
  - pose proof (Count_nonneg "/" (slice_to path i)). lia.
  - cbn [strip].
    destruct (Z.eqb_spec (LastIndex (slice_to path i) "/") (-1)) as [E|E];
      [reflexivity|].
    destruct (LastIndex_split "/" _ E) as (a & b & Hs & Hb & Hl).
    rewrite Hl. pose proof (len_nonneg a).
    pose proof (len_take (Z.to_nat i) path) as Ht. fold (slice_to path i) in Ht.
    assert (Hlen : len (slice_to path i) = len a + 1 + len b).
    { rewrite Hs, len_app. unfold len. cbn [String.length]. lia. }
    pose proof (len_nonneg b).
    assert (Ha : slice_to path (len a) = a).
    { unfold slice_to.
      rewrite <- (take_take (Z.to_nat (len a)) (Z.to_nat i)) by lia.
      fold (slice_to path i). rewrite Hs. fold (slice_to (a ++ String "/" b) (len a)).
      rewrite slice_to_app by lia. apply slice_to_len. }
    apply IH; [lia|]. rewrite Ha.
    rewrite Hs, Count_app in Hc. cbn [Count] in Hc.
    rewrite Ascii.eqb_refl, Hb in Hc. lia.
Qed.

(** X4: degenerate frames are left alone.  When the file path has
    fewer separators than the label implies (the label's separators
    plus two), nothing is cut from the path; when the label has neither
    a separator nor a dot, nothing is cut from the label. *)
Theorem parseFrame_leaves_short_frames (frame : Frame) :
  (Count (File frame) "/" < Count (Function frame) "/" + 2 →
   fst (fst (parseFrame frame)) = File frame)
  ∧ (Count (Function frame) "/" = 0 → Count (Function frame) "." = 0 →
     snd (parseFrame frame) = Function frame)
  ∧ snd (fst (parseFrame frame)) = Line frame.
Proof.
  unfold parseFrame. cbn [fst snd]. split; [|split; [|reflexivity]].
  - intros Hc. pose proof (Count_nonneg "/" (Function frame)).
    rewrite strip_short; [apply slice_from_0| |].
    + pose proof (len_nonneg (File frame)). lia.
    + rewrite slice_to_len. lia.
  - intros Hs Hd.
    rewrite (LastIndex_absent "/" _ Hs). change (-1 + 1) with 0.
    rewrite slice_from_0.
    assert (Index (Function frame) "." = -1) as ->.
    { revert Hd. generalize (Function frame) as s.
      induction s as [|x s IH]; [reflexivity|]. cbn [Count Index].
      pose proof (Count_nonneg "." s).
      destruct (Ascii.eqb x "."); [lia|]. intros Hd. rewrite IH by lia. reflexivity. }
    apply slice_from_0.
Qed.

End DegenerateFrames.

(** The theorem at a frame of the program's entry point, compiled from
    a bare file name. *)
Lemma parseFrame_leaves_short_frames_witness :
  let frame := {| File := "main.go"; Line := 12; Function := "main" |} in
  fst (fst (parseFrame frame)) = "main.go" ∧ snd (parseFrame frame) = "main".
Proof.
  pose proof (parseFrame_leaves_short_frames
                {| File := "main.go"; Line := 12; Function := "main" |})
    as (H1 & H2 & _).
  split; [exact (H1 eq_refl) | exact (H2 eq_refl eq_refl)].
Defined.

(** ** The metric accumulator: units, sums, exports *)

Section Units.

(** X5: every unit with a multiple prefix is scaled by the exact power
    of 1024 of its prefix (kilo 1, mega 2, giga 3, tera 4) to the unit
    without prefix, for sizes, bit counts and both rates, and seconds
    are scaled by 10^6 to microseconds; the chained multiplications of
    the code are one multiplication by that power on every binary64
    value. *)
Theorem Normalize_prefix_powers (v : float) (ts : Time) :
  Forall (λ '(unit, j, base),
            Normalize {| Val := v; Unit := unit; Timestamp := ts |}
            = ((v * float_of_Z (1024 ^ j))%float, base)) prefixed_units
  ∧ Normalize {| Val := v; Unit := StandardUnitSeconds; Timestamp := ts |}
    = ((v * float_of_Z (10 ^ 6))%float, StandardUnitMicroseconds).
Proof.
  split; [|reflexivity].
  unfold prefixed_units.
  repeat (apply Forall_cons; split;
          [first [ reflexivity
                 | change (float_of_Z (1024 ^ 2)) with 1048576%float;
                   rewrite <- mul_1024_twice; reflexivity
                 | change (float_of_Z (1024 ^ 3)) with 1073741824%float;
                   rewrite <- mul_1024_thrice; reflexivity
                 | change (float_of_Z (1024 ^ 4)) with 1099511627776%float;
                   rewrite <- mul_1024_four_times; reflexivity ]|]).
  apply Forall_nil. exact I.
Qed.

Lemma Normalize_smallest (e : MetricEntry) : snd (Normalize e) ∈ smallest_units.
Proof.
  unfold Normalize, smallest_units.
  repeat (destruct (String.eqb (Unit e) _);
          [cbn [snd]; rewrite !elem_of_cons; tauto|]).
  cbn [snd]. rewrite !elem_of_cons. tauto.
Qed.

Lemma Normalize_on_smallest (v : float) (u : StandardUnit) (ts : Time) :
  u ∈ smallest_units →
  Normalize {| Val := v; Unit := u; Timestamp := ts |} = (v, u).
Proof.
  unfold smallest_units. rewrite !elem_of_cons, elem_of_nil.
  intros H. repeat (destruct H as [->|H]; [reflexivity|]). destruct H.
Qed.

(** X6: [Normalize] ends in one of nine smallest units, and applying it
    to its own result changes nothing; a unit it does not know (any
    other string) is turned into [None] with the value untouched. *)
Theorem Normalize_reaches_smallest_unit (e : MetricEntry) (ts : Time) :
  snd (Normalize e) ∈ smallest_units
  ∧ Normalize {| Val := fst (Normalize e); Unit := snd (Normalize e);
                 Timestamp := ts |} = Normalize e
  ∧ (Unit e ∉ standard_units → Normalize e = (Val e, StandardUnitNone)).
Proof.
  split; [apply Normalize_smallest|]. split.
  - rewrite Normalize_on_smallest by apply Normalize_smallest.
    now destruct (Normalize e).
  - intros Hn. unfold Normalize.
    repeat match goal with
           | |- context [String.eqb (Unit e) ?u] =>
               destruct (String.eqb_spec (Unit e) u) as [Eu|Eu];
               [exfalso; apply Hn; rewrite Eu; unfold standard_units;
                rewrite !elem_of_cons; tauto | clear Eu]
           end.
    reflexivity.
Qed.

End Units.

(** The theorem at a unit that is not one of CloudWatch's. *)
Lemma Normalize_reaches_smallest_unit_witness :
  Normalize {| Val := 3; Unit := "Furlongs"; Timestamp := 0 |}
  = (3%float, StandardUnitNone).
Proof.
  refine (proj2 (proj2 (Normalize_reaches_smallest_unit
                          {| Val := 3; Unit := "Furlongs"; Timestamp := 0 |} 0)) _).
  unfold standard_units. rewrite !elem_of_cons, elem_of_nil.
  intros H. repeat (destruct H as [H|H]; [discriminate H|]). destruct H.
Defined.

Section AccumulatorComposition.

Implicit Types (m : MetricsContext) (name : string) (unit : StandardUnit).

Lemma AddMetrics_from_entry name unit (calls : list (float * Time)) m cur :
  Metrics m !! name = Some cur → Unit cur = unit →
  ∃ m', AddMetrics m name calls unit = Ok m'
        ∧ Metrics m' !! name
          = Some {| Val := fold_left (λ a '(v, _), (a + v)%float) calls (Val cur);
                    Unit := unit; Timestamp := Timestamp cur |}
        ∧ OpName m' = OpName m
        ∧ ∀ other, other ≠ name → Metrics m' !! other = Metrics m !! other.
Proof.
  revert m cur. induction calls as [|[v t] calls IH]; intros m cur Hm Hu.
  - exists m. cbn. rewrite Hm. destruct cur; cbn in *; subst. auto.
  - unfold AddMetrics. cbn [fold_left].
    rewrite (AddMetric_again _ _ _ _ _ _ Hm Hu).
    match goal with |- context [Ok ?x] => set (m1 := x) end.
    destruct (IH m1 {| Val := (Val cur + v)%float; Unit := unit;
                       Timestamp := Timestamp cur |}) as (m' & H1 & H2 & H3 & H4);
      [unfold m1; cbn [Metrics]; apply lookup_insert_eq | reflexivity |].
    exists m'. split; [exact H1|]. split; [exact H2|]. split; [exact H3|].
    intros other Hne. rewrite (H4 other Hne). unfold m1. cbn [Metrics].
    now rewrite lookup_insert_ne.
Qed.

(** X7: a run of [AddMetric] calls on a new name, all with the same
    unit, never panics; the entry then holds the values added up in the
    order of the calls, the unit, and the time of the first call, and
    every other entry and the operation name are as before. *)
Theorem AddMetrics_sums m name unit (v0 : float) (t0 : Time)
    (calls : list (float * Time)) :
  Metrics m !! name = None →
  ∃ m', AddMetrics m name ((v0, t0) :: calls) unit = Ok m'
        ∧ Metrics m' !! name
          = Some {| Val := fold_left (λ a '(v, _), (a + v)%float) calls v0;
                    Unit := unit; Timestamp := t0 |}
        ∧ OpName m' = OpName m
        ∧ ∀ other, other ≠ name → Metrics m' !! other = Metrics m !! other.
Proof.
  intros Hm. unfold AddMetrics. cbn [fold_left].
  rewrite (AddMetric_first _ _ _ _ _ Hm).
  match goal with |- context [Ok ?x] => set (m1 := x) end.
  destruct (AddMetrics_from_entry name unit calls m1
              {| Val := v0; Unit := unit; Timestamp := t0 |})
    as (m' & H1 & H2 & H3 & H4);
    [unfold m1; cbn [Metrics]; apply lookup_insert_eq | reflexivity |].
  exists m'. split; [exact H1|]. split; [exact H2|]. split; [exact H3|].
  intros other Hne. rewrite (H4 other Hne). unfold m1. cbn [Metrics].
  now rewrite lookup_insert_ne.
Qed.

(** X8: [SetMetric] never fails and replaces entry and unit, whatever
    was stored under the name: the name then reads as set, the other
    names as before, a following [AddMetric] with the new unit adds to
    the new value, and one with any other unit (the old one included)
    panics. *)
Theorem SetMetric_replaces_unit m name (v v2 : float) unit unit2 (now now2 : Time) :
  let m1 := SetMetric m name v unit now in
  GetMetric m1 name = (v, unit)
  ∧ (∀ other, other ≠ name → GetMetric m1 other = GetMetric m other)
  ∧ (unit2 = unit →
     ∃ m2, AddMetric m1 name v2 unit2 now2 = Ok m2
           ∧ GetMetric m2 name = ((v + v2)%float, unit))
  ∧ (unit2 ≠ unit → ∃ p, AddMetric m1 name v2 unit2 now2 = Panic p).
Proof.
  cbv zeta.
  assert (Hl : Metrics (SetMetric m name v unit now) !! name
               = Some {| Val := v; Unit := unit; Timestamp := now |})
    by (cbn [SetMetric Metrics]; apply lookup_insert_eq).
  split; [unfold GetMetric; now rewrite Hl|]. split.
  - intros other Hne. unfold GetMetric, SetMetric. cbn [Metrics].
    now rewrite lookup_insert_ne.
  - split.
    + intros ->. eexists. split; [exact (AddMetric_again _ _ _ _ _ _ Hl eq_refl)|].
      unfold GetMetric. cbn [Metrics]. now rewrite lookup_insert_eq.
    + intros Hne. eexists. apply (AddMetric_mismatch _ _ _ _ _ _ Hl).
      cbn [Unit]. congruence.
Qed.

(** X9: [Reset] empties the accumulator and keeps its operation name:
    every name then reads as absent (0, no unit), a second [Reset]
    changes nothing, and the units are forgotten, so that [AddMetric]
    succeeds under any unit. *)
Theorem Reset_forgets m name (v : float) unit (now : Time) :
  GetMetric (Reset m) name = (0%float, StandardUnitNone)
  ∧ OpName (Reset m) = OpName m
  ∧ Reset (Reset m) = Reset m
  ∧ ∃ m', AddMetric (Reset m) name v unit now = Ok m'
          ∧ GetMetric m' name = (v, unit).
Proof.
  split; [unfold GetMetric, Reset; cbn [Metrics]; now rewrite lookup_empty|].
  split; [reflexivity|]. split; [reflexivity|].
  eexists. split; [apply AddMetric_first; cbn [Reset Metrics]; apply lookup_empty|].
  unfold GetMetric. cbn [Metrics]. now rewrite lookup_insert_eq.
Qed.

End AccumulatorComposition.

(** The theorem of X7 at the additions of 10, 2 and 0.5 to a new name. *)
Lemma AddMetrics_sums_witness :
  ∃ m', AddMetrics (NewMetricsContext "op") "zonk" [(10%float, 1); (2%float, 2); (0.5%float, 3)]
          StandardUnitCount = Ok m'
        ∧ Metrics m' !! "zonk"
          = Some {| Val := fold_left (λ a '(v, _), (a + v)%float)
                             [(2%float, 2); (0.5%float, 3)] 10%float;
                    Unit := StandardUnitCount; Timestamp := 1 |}
        ∧ OpName m' = "op"
        ∧ ∀ other, other ≠ "zonk" →
            Metrics m' !! other = Metrics (NewMetricsContext "op") !! other.
Proof.
  exact (AddMetrics_sums (NewMetricsContext "op") "zonk" StandardUnitCount
           10 1 [(2%float, 2); (0.5%float, 3)] (lookup_empty _)).
Defined.

(** The theorem of X8 at an entry counted first and then set to a rate. *)
Lemma SetMetric_replaces_unit_witness :
  let m := {| OpName := "op";
              Metrics := {["speed" := {| Val := 7; Unit := StandardUnitCount;
                                         Timestamp := 1 |}]} |} in
  let m1 := SetMetric m "speed" 123 StandardUnitGigabitsSecond 2 in
  (∃ m2, AddMetric m1 "speed" 2 StandardUnitGigabitsSecond 3 = Ok m2
         ∧ GetMetric m2 "speed" = ((123 + 2)%float, StandardUnitGigabitsSecond))
  ∧ (∃ p, AddMetric m1 "speed" 2 StandardUnitCount 3 = Panic p).
Proof.
  intros m m1. split.
  - exact (proj1 (proj2 (proj2 (SetMetric_replaces_unit m "speed" 123 2
             StandardUnitGigabitsSecond StandardUnitGigabitsSecond 2 3))) eq_refl).
  - refine (proj2 (proj2 (proj2 (SetMetric_replaces_unit m "speed" 123 2
             StandardUnitGigabitsSecond StandardUnitCount 2 3))) _).
    discriminate.
Defined.

Section Exports.

Context `{Utils}.

Implicit Types (w : World) (met : nat).

(** X10: [CopyToSpan] only reads the accumulator and only sets tags on
    the given span.  Every metric gets a tag with its normalised value
    under its name, and a tag [<name>_unit] with the unit's name when the
    normalised unit is not [Count]; nothing else is set, so an empty
    accumulator sets no tag, and a count never gets a unit tag of its
    own. *)
Theorem CopyToSpan_tags met span w :
  ∃ tags w',
    CopyToSpan met span w = (Ok tt, w')
    ∧ events w' = (events w ++ tags)%list
    ∧ heap w' = heap w
    ∧ (∀ name e, Metrics (deref met w) !! name = Some e →
         value_tag span name e ∈ tags
         ∧ (snd (Normalize e) ≠ StandardUnitCount → unit_tag span name e ∈ tags))
    ∧ (∀ ev, ev ∈ tags →
         ∃ name e, Metrics (deref met w) !! name = Some e
                   ∧ (ev = value_tag span name e
                      ∨ (snd (Normalize e) ≠ StandardUnitCount
                         ∧ ev = unit_tag span name e))).
Proof.
  unfold CopyToSpan, emit. do 2 eexists. split; [reflexivity|].
  cbn [events heap]. split; [reflexivity|]. split; [reflexivity|].
  split.
  - intros name e Hm. apply elem_of_map_to_list, list_elem_of_In in Hm.
    split; [|intros Hu]; apply list_elem_of_In, in_flat_map;
      exists (name, e); (split; [exact Hm|]);
      unfold value_tag, unit_tag; destruct (Normalize e) as [nv nu]; cbn [fst snd] in *.
    + now left.
    + right. apply String.eqb_neq in Hu. rewrite Hu. now left.
  - intros ev Hev. apply list_elem_of_In, in_flat_map in Hev.
    destruct Hev as ([name e] & Hin & Hev).
    apply list_elem_of_In, elem_of_map_to_list in Hin.
    exists name, e. split; [exact Hin|].
    unfold value_tag, unit_tag. destruct (Normalize e) as [nv nu]; cbn [fst snd] in *.
    destruct Hev as [<-|Hev]; [now left|].
    destruct (String.eqb_spec nu StandardUnitCount) as [E|Hne]; [destruct Hev|].
    destruct Hev as [<-|[]]. right. now split.
Qed.

Lemma flat_map_singleton {A B} (g : A → B) (l : list A) :
  flat_map (λ x, [g x]) l = map g l.
Proof. induction l as [|x l IH]; [reflexivity|]. cbn. now rewrite IH. Qed.

Lemma flat_map_nil {A B} (g : A → list B) (l : list A) :
  (∀ x, g x = []) → flat_map g l = [].
Proof. intros Hg. induction l as [|x l IH]; [reflexivity|]. cbn. now rewrite Hg, IH. Qed.

Lemma CopyToStatsd_Sink met id clientType w :
  CopyToStatsd met (Sink id) clientType w
  = (Ok tt,
     {| now := now w; callers := callers w; next_id := next_id w;
        next_addr := next_addr w; heap := heap w;
        events := events w
                  ++ map (λ '(name, e), sample id (OpName (deref met w)) clientType name e)
                       (map_to_list (Metrics (deref met w))) |}).
Proof.
  unfold CopyToStatsd, emit. do 2 f_equal. f_equal.
  rewrite <- flat_map_singleton. apply flat_map_ext. intros [name e].
  unfold sample. now destruct (Normalize e).
Qed.

(** X11: [CopyToStatsd] only reads the accumulator.  On the no-op client
    nothing is sent; on a real sink exactly one distribution sample is
    sent per metric, named [<operation>.<metric>], with the normalised
    value, the tags [unit:<unit name>] and [client-type:<client type>]
    and the rate 1, and nothing else. *)
Theorem CopyToStatsd_samples met clientType w :
  (∃ w', CopyToStatsd met NoOpClient clientType w = (Ok tt, w')
         ∧ events w' = events w ∧ heap w' = heap w)
  ∧ ∀ id, ∃ samples w',
      CopyToStatsd met (Sink id) clientType w = (Ok tt, w')
      ∧ events w' = (events w ++ samples)%list
      ∧ heap w' = heap w
      ∧ length samples = size (Metrics (deref met w))
      ∧ (∀ name e, Metrics (deref met w) !! name = Some e →
           sample id (OpName (deref met w)) clientType name e ∈ samples)
      ∧ (∀ ev, ev ∈ samples →
           ∃ name e, Metrics (deref met w) !! name = Some e
                     ∧ ev = sample id (OpName (deref met w)) clientType name e).
Proof.
  split.
  - unfold CopyToStatsd, emit. eexists. split; [reflexivity|]. cbn [events heap].
    split; [|reflexivity].
    rewrite flat_map_nil; [apply app_nil_r|].
    intros [name e]. now destruct (Normalize e).
  - intros id. rewrite CopyToStatsd_Sink. do 2 eexists. split; [reflexivity|].
    cbn [events heap]. split; [reflexivity|]. split; [reflexivity|].
    split; [now rewrite length_map, length_map_to_list|]. split.
    + intros name e Hm. apply elem_of_map_to_list in Hm.
      apply list_elem_of_fmap. now exists (name, e).
    + intros ev Hev. apply list_elem_of_fmap in Hev. destruct Hev as ([name e] & -> & Hin).
      apply elem_of_map_to_list in Hin. now exists name, e.
Qed.

End Exports.

Section Recording.

Context `{Utils}.

Variables (id : nat) (opName clientType : string).

Implicit Types (l : list (string * MetricEntry)) (r : RecordingSink).

Let sent l : list Event :=
  map (λ '(name, e), sample id opName clientType name e) l.

Lemma qualified_name_inj (a b : string) :
  opName ++ "." ++ a = opName ++ "." ++ b → a = b.
Proof. intros E. apply (inj (String.app opName)) in E. now injection E. Qed.

Lemma replay_recorded l r key :
  NoDup (l.*1) →
  Distributions (replay id (sent l) r) !! (opName ++ "." ++ key)
  = match (list_to_map l : gmap string MetricEntry) !! key with
    | Some e => Some (fst (Normalize e))
    | None => Distributions r !! (opName ++ "." ++ key)
    end
  ∧ Tags (replay id (sent l) r) !! (opName ++ "." ++ key)
    = match (list_to_map l : gmap string MetricEntry) !! key with
      | Some e => Some ["unit:" ++ normalizeUnitName (snd (Normalize e));
                        "client-type:" ++ clientType]
      | None => Tags r !! (opName ++ "." ++ key)
      end.
Proof.
  revert r. induction l as [|[n e] l IH]; intros r Hnd.
  - cbn. now rewrite lookup_empty.
  - cbn [fmap list_fmap fst] in Hnd. apply NoDup_cons in Hnd as [Hn Hnd].
    unfold replay, sent in *. cbn [map fold_left deliver sample].
    destruct (decide (id = id)); [|congruence].
    destruct (IH (sink_Distribution r (opName ++ "." ++ n) (fst (Normalize e))
                    ["unit:" ++ normalizeUnitName (snd (Normalize e));
                     "client-type:" ++ clientType]) Hnd) as [-> ->].
    cbn [list_to_map foldr fst snd]. unfold sink_Distribution. cbn [Distributions Tags].
    destruct (decide (n = key)) as [->|Hne].
    + rewrite lookup_insert_eq.
      rewrite (not_elem_of_list_to_map_1 _ _ Hn), !lookup_insert_eq. auto.
    + assert (Hq : opName ++ "." ++ n ≠ opName ++ "." ++ key)
        by (intros E; apply Hne; now apply qualified_name_inj).
      rewrite !lookup_insert_ne by assumption. auto.
Qed.

Lemma replay_keys l r k :
  is_Some (Distributions (replay id (sent l) r) !! k) →
  is_Some (Distributions r !! k) ∨ ∃ name e, (name, e) ∈ l ∧ k = opName ++ "." ++ name.
Proof.
  revert r. induction l as [|[n e] l IH]; intros r; [now left|].
  unfold replay, sent in *. cbn [map fold_left deliver sample].
  destruct (decide (id = id)); [|congruence].
  intros Hk. apply IH in Hk as [Hk|(name & e' & Hin & ->)].
  - unfold sink_Distribution in Hk. cbn [Distributions] in Hk.
    destruct (decide (opName ++ "." ++ n = k)) as [<-|Hne].
    + right. exists n, e. split; [apply list_elem_of_here | reflexivity].
    + rewrite lookup_insert_ne in Hk by assumption. now left.
  - right. exists name, e'. split; [now apply list_elem_of_further | reflexivity].
Qed.

End Recording.

Section RecordingSink.

Context `{Utils}.

(** X12: the recording sink after [CopyToStatsd].  Sent to a new
    recording sink, the samples leave under [<operation>.<metric>] the
    normalised value of that metric and its two tags, for every metric
    of the accumulator, and the sink holds no distribution under any
    other name. *)
Theorem CopyToStatsd_recorded (met id : nat) (clientType : string) (w : World) :
  ∃ samples w',
    CopyToStatsd met (Sink id) clientType w = (Ok tt, w')
    ∧ events w' = (events w ++ samples)%list
    ∧ let m := deref met w in
      let r := replay id samples NewRecordingSink in
      (∀ name,
         Distributions r !! (OpName m ++ "." ++ name)
         = (λ e, fst (Normalize e)) <$> Metrics m !! name
         ∧ Tags r !! (OpName m ++ "." ++ name)
           = (λ e, ["unit:" ++ normalizeUnitName (snd (Normalize e));
                    "client-type:" ++ clientType]) <$> Metrics m !! name)
      ∧ (∀ k, is_Some (Distributions r !! k) →
           ∃ name, k = OpName m ++ "." ++ name ∧ is_Some (Metrics m !! name)).
Proof.
  rewrite CopyToStatsd_Sink. do 2 eexists. split; [reflexivity|].
  cbn [events]. split; [reflexivity|]. cbv zeta. split.
  - intros name.
    destruct (replay_recorded id (OpName (deref met w)) clientType
                (map_to_list (Metrics (deref met w))) NewRecordingSink name
                (NoDup_fst_map_to_list _)) as [-> ->].
    rewrite list_to_map_to_list.
    destruct (Metrics (deref met w) !! name); cbn; [auto|].
    now rewrite !lookup_empty.
  - intros k Hk. apply replay_keys in Hk as [Hk|(name & e & Hin & ->)].
    + cbn in Hk. rewrite lookup_empty in Hk. now destruct Hk.
    + apply elem_of_map_to_list in Hin. exists name. split; [reflexivity|].
      now rewrite Hin.
Qed.

End RecordingSink.

(** ** Scopes and the instrumented execution wrapper *)

Section Scopes.

(** X13: metric scopes nest.  [MakeMetricContext] binds a new, empty
    accumulator with the given operation name; made twice, the inner
    scope answers with the second accumulator (also through
    [TryGetMetricsFromContext]), the first one is a different object
    and stays as it was, and the other bindings of the scope are kept.
    Without any metrics scope the fetch panics and the try-fetch gives
    nil. *)
Theorem MakeMetricContext_nests (ctx : Context) (op1 op2 : string) (w : World) :
  (∃ c1 w1 c2 w2 a1 a2,
     MakeMetricContext ctx op1 w = (Ok c1, w1)
     ∧ MakeMetricContext c1 op2 w1 = (Ok c2, w2)
     ∧ GetMetricsFromContext c1 = Ok a1
     ∧ GetMetricsFromContext c2 = Ok a2
     ∧ TryGetMetricsFromContext c2 = Some a2
     ∧ a1 ≠ a2
     ∧ deref a2 w2 = NewMetricsContext op2
     ∧ deref a1 w2 = NewMetricsContext op1
     ∧ CL c2 = CL ctx
     ∧ GetStatsdFromContext c2 = GetStatsdFromContext ctx
     ∧ GetClientTypeFromContext c2 = GetClientTypeFromContext ctx
     ∧ events w2 = events w)
  ∧ (metricsKey ctx = None →
     GetMetricsFromContext ctx = Panic (VString "No metrics context attached")
     ∧ TryGetMetricsFromContext ctx = None).
Proof.
  split.
  - unfold MakeMetricContext. do 6 eexists.
    split; [reflexivity|]. split; [reflexivity|].
    split; [reflexivity|]. split; [reflexivity|]. split; [reflexivity|].
    split; [cbn; lia|]. unfold deref. cbn [heap].
    split; [now rewrite lookup_insert_eq|].
    split; [rewrite lookup_insert_ne by (cbn; lia); now rewrite lookup_insert_eq|].
    repeat split.
  - intros Hm. unfold GetMetricsFromContext, TryGetMetricsFromContext.
    rewrite Hm. split; reflexivity.
Qed.

End Scopes.

(** The second part of the theorem at the empty scope. *)
Lemma MakeMetricContext_nests_witness :
  GetMetricsFromContext Background = Panic (VString "No metrics context attached")
  ∧ TryGetMetricsFromContext Background = None.
Proof.
  exact (proj2 (MakeMetricContext_nests Background "a" "b" fresh_world) eq_refl).
Defined.

Section RunInstrumentedReturns.

Context `{Utils}.

Implicit Types (w : World) (ctx : Context) (fn : Context → M value).

(** X14: without a logger in the scope [RunInstrumented] panics at
    once: no span is started, nothing is sent, the body is not invoked
    and the world is as before. *)
Theorem RunInstrumented_needs_logger ctx name fn w :
  loggerKey ctx = None →
  RunInstrumented ctx name fn w
  = (Panic (VString "Trying to log from an un-imbued context"), w).
Proof. intros Hl. unfold RunInstrumented, CL. now rewrite Hl. Qed.

Lemma RunInstrumented_scope ctx name w l :
  loggerKey ctx = Some l →
  ∃ span c met w1,
    (∀ fn, RunInstrumented ctx name fn w
           = recovering span
               (defer (CopyToStatsd met (GetStatsdFromContext ctx)
                         (GetClientTypeFromContext ctx))
                  (defer (CopyToSpan met span) (fn c))) w1)
    ∧ events w1
      = (events w
         ++ [StartSpan span name "background";
             SetTag span ext_ResourceName (TagString name);
             SetTag span ClientTypeTag (TagString (GetClientTypeFromContext ctx));
             SetOperationName span name])%list
    ∧ CL c = Ok (With (Named l name)
                   [("dd.trace_id", Itoa (TraceID span));
                    ("dd.span_id", Itoa (SpanID span))])
    ∧ GetMetricsFromContext c = Ok met
    ∧ deref met w1 = NewMetricsContext name
    ∧ GetStatsdFromContext c = GetStatsdFromContext ctx
    ∧ GetClientTypeFromContext c = GetClientTypeFromContext ctx
    ∧ activeSpan c = Some span
    ∧ TraceID span = match activeSpan ctx with
                     | Some parent => TraceID parent
                     | None => SpanID span
                     end.
Proof.
  intros Hl. unfold RunInstrumented, CL. rewrite Hl.
  do 4 eexists. split; [intros fn; reflexivity|].
  cbn. unfold deref. cbn. rewrite lookup_insert_eq, <- app_assoc. repeat split.
Qed.

(** X15: the scope of the body and the normal return.  With a logger
    in the scope, [RunInstrumented] starts a span, tags it with the
    resource name and the client type, and invokes the body in a scope
    that holds a logger named after the operation with the trace and
    span identifiers, a new empty accumulator named after the
    operation, the caller's sink and client type, and the span (which
    continues the caller's trace when there is one).  When the body
    returns, its error or nil is returned unchanged, and the span is
    finished with it as the last call, after the metrics are copied. *)
Theorem RunInstrumented_scope_and_return ctx name w l :
  loggerKey ctx = Some l →
  ∃ span c met w1,
    events w1
    = (events w
       ++ [StartSpan span name "background";
           SetTag span ext_ResourceName (TagString name);
           SetTag span ClientTypeTag (TagString (GetClientTypeFromContext ctx));
           SetOperationName span name])%list
    ∧ CL c = Ok (With (Named l name)
                   [("dd.trace_id", Itoa (TraceID span));
                    ("dd.span_id", Itoa (SpanID span))])
    ∧ GetMetricsFromContext c = Ok met
    ∧ deref met w1 = NewMetricsContext name
    ∧ GetStatsdFromContext c = GetStatsdFromContext ctx
    ∧ GetClientTypeFromContext c = GetClientTypeFromContext ctx
    ∧ activeSpan c = Some span
    ∧ TraceID span = match activeSpan ctx with
                     | Some parent => TraceID parent
                     | None => SpanID span
                     end
    ∧ ∀ fn err wf, fn c w1 = (Ok err, wf) →
        ∃ copied w', RunInstrumented ctx name fn w = (Ok err, w')
                     ∧ events w' = (events wf ++ copied ++ [Finish span err])%list.
Proof.
  intros Hl.
  destruct (RunInstrumented_scope ctx name w l Hl)
    as (span & c & met & w1 & Hrun & He & Hlog & Hmet & Hfresh & Hs & Hc & Ha & Ht).
  exists span, c, met, w1. repeat (split; [assumption|]).
  intros fn err wf Hfn. rewrite Hrun.
  destruct (body_with_defers met span (GetStatsdFromContext ctx)
              (GetClientTypeFromContext ctx) (fn c) w1 _ _ Hfn)
    as (copied & w2 & Hb & Hev & _).
  unfold recovering. rewrite Hb. do 2 eexists. split; [reflexivity|].
  cbn [events]. now rewrite Hev, app_assoc.
Qed.

Lemma recovering_extends span (body : M value) w r w' :
  body w = (r, w') →
  ∃ more, events (snd (recovering span body w)) = (events w' ++ more)%list.
Proof.
  intros Hb. unfold recovering. rewrite Hb.
  destruct r as [err|p]; [|destruct (decide (p ≠ VNil))]; eexists; reflexivity.
Qed.

Lemma CopyToSpan_value_tag met span w :
  ∃ tags w',
    CopyToSpan met span w = (Ok tt, w')
    ∧ events w' = (events w ++ tags)%list
    ∧ heap w' = heap w
    ∧ ∀ name e, Metrics (deref met w) !! name = Some e →
        value_tag span name e ∈ tags.
Proof.
  unfold CopyToSpan, emit. do 2 eexists. split; [reflexivity|].
  cbn [events heap]. split; [reflexivity|]. split; [reflexivity|].
  intros name e Hm. apply elem_of_map_to_list, list_elem_of_In in Hm.
  apply list_elem_of_In, in_flat_map. exists (name, e). split; [exact Hm|].
  unfold value_tag. destruct (Normalize e) as [nv nu]. now left.
Qed.

(** X16: the metrics of the body are flushed however the body ends.
    Whether it returns or panics, every metric its accumulator then
    holds is set as a tag on the span, and sent as one sample to the
    sink of the caller's scope when that is a real sink. *)
Theorem RunInstrumented_flushes ctx name w l :
  loggerKey ctx = Some l →
  ∃ span c met w1,
    GetMetricsFromContext c = Ok met
    ∧ ∀ fn r wf, fn c w1 = (r, wf) →
        ∀ mname e, Metrics (deref met wf) !! mname = Some e →
          let w' := snd (RunInstrumented ctx name fn w) in
          value_tag span mname e ∈ events w'
          ∧ (∀ id, GetStatsdFromContext ctx = Sink id →
               sample id (OpName (deref met wf)) (GetClientTypeFromContext ctx)
                 mname e ∈ events w').
Proof.
  intros Hl.
  destruct (RunInstrumented_scope ctx name w l Hl)
    as (span & c & met & w1 & Hrun & _ & _ & Hmet & _).
  exists span, c, met, w1. split; [assumption|].
  intros fn r wf Hfn mname e Hm. cbv zeta. rewrite Hrun.
  destruct (CopyToSpan_value_tag met span wf) as (tags & wa & Hs & Hes & Hhs & Htag).
  assert (Hda : deref met wa = deref met wf) by (unfold deref; now rewrite Hhs).
  destruct (CopyToStatsd_spec met (GetStatsdFromContext ctx)
              (GetClientTypeFromContext ctx) wa) as (e2 & wb & Hb & Heb & _).
  assert (Hbody : defer (CopyToStatsd met (GetStatsdFromContext ctx)
                           (GetClientTypeFromContext ctx))
                    (defer (CopyToSpan met span) (fn c)) w1 = (r, wb))
    by (eapply defer_Ok; [eapply defer_Ok; eassumption | eassumption]).
  destruct (recovering_extends span _ w1 r wb Hbody) as (more & ->).
  split.
  - rewrite Heb, Hes. apply elem_of_app. left. apply elem_of_app. left.
    apply elem_of_app. right. now apply Htag.
  - intros id Hid. rewrite Hid, CopyToStatsd_Sink in Hb. injection Hb as <-.
    cbn [events]. apply elem_of_app. left. apply elem_of_app. right.
    rewrite Hda. apply list_elem_of_fmap. exists (mname, e).
    split; [reflexivity|]. now apply elem_of_map_to_list.
Qed.

End RunInstrumentedReturns.

(** The theorem of X14 at the empty scope. *)
Lemma RunInstrumented_needs_logger_witness :
  @RunInstrumented plain_names Background "test1" idle fresh_world
  = (Panic (VString "Trying to log from an un-imbued context"), fresh_world).
Proof.
  exact (@RunInstrumented_needs_logger plain_names Background "test1" idle
           fresh_world eq_refl).
Defined.

(** The theorem of X15 at the root scope, with a logger. *)
Lemma RunInstrumented_scope_and_return_witness :
  ∃ span c met w1,
    events w1
    = (events fresh_world
       ++ [StartSpan span "test1" "background";
           SetTag span ext_ResourceName (TagString "test1");
           SetTag span ClientTypeTag (TagString (GetClientTypeFromContext root));
           SetOperationName span "test1"])%list
    ∧ CL c = Ok (With (Named {| logger_name := ""; logger_fields := [] |} "test1")
                   [("dd.trace_id", Itoa (TraceID span));
                    ("dd.span_id", Itoa (SpanID span))])
    ∧ GetMetricsFromContext c = Ok met
    ∧ deref met w1 = NewMetricsContext "test1"
    ∧ GetStatsdFromContext c = GetStatsdFromContext root
    ∧ GetClientTypeFromContext c = GetClientTypeFromContext root
    ∧ activeSpan c = Some span
    ∧ TraceID span = match activeSpan root with
                     | Some parent => TraceID parent
                     | None => SpanID span
                     end
    ∧ ∀ fn err wf, fn c w1 = (Ok err, wf) →
        ∃ copied w', @RunInstrumented plain_names root "test1" fn fresh_world
                     = (Ok err, w')
                     ∧ events w' = (events wf ++ copied ++ [Finish span err])%list.
Proof.
  exact (@RunInstrumented_scope_and_return plain_names root "test1" fresh_world
           {| logger_name := ""; logger_fields := [] |} eq_refl).
Defined.

(** The theorem of X16 at the root scope, with a logger. *)
Lemma RunInstrumented_flushes_witness :
  ∃ span c met w1,
    GetMetricsFromContext c = Ok met
    ∧ ∀ fn r wf, fn c w1 = (r, wf) →
        ∀ mname e, Metrics (deref met wf) !! mname = Some e →
          let w' := snd (@RunInstrumented plain_names root "test1" fn fresh_world) in
          value_tag span mname e ∈ events w'
          ∧ (∀ id, GetStatsdFromContext root = Sink id →
               @sample plain_names id (OpName (deref met wf))
                 (GetClientTypeFromContext root) mname e ∈ events w').
Proof.
  exact (@RunInstrumented_flushes plain_names root "test1" fresh_world
           {| logger_name := ""; logger_fields := [] |} eq_refl).
Defined.

Section InstrumentWithMetricsEdges.

(** X17: without a metrics scope [InstrumentWithMetrics] panics at
    once; the body is not invoked and the world is as before. *)
Theorem InstrumentWithMetrics_needs_metrics (ctx : Context)
    (fn : Context → M value) (w : World) :
  metricsKey ctx = None →
  InstrumentWithMetrics ctx fn w
  = (Panic (VString "No metrics context attached"), w).
Proof.
  intros Hm. unfold InstrumentWithMetrics, GetMetricsFromContext. now rewrite Hm.
Qed.

End InstrumentWithMetricsEdges.

Lemma InstrumentWithMetrics_needs_metrics_witness :
  InstrumentWithMetrics root idle fresh_world
  = (Panic (VString "No metrics context attached"), fresh_world).
Proof. exact (InstrumentWithMetrics_needs_metrics root idle fresh_world eq_refl). Defined.

Section TimeMetric.

Variables (ctx : Context) (fn : Context → M value) (met : nat)
          (opName : string) (w : World).

Hypothesis scope : metricsKey ctx = Some met.
Hypothesis fresh : heap w !! met = Some (NewMetricsContext opName).
Hypothesis frame : leaves_wrapper_metrics met (fn ctx) (world_at_body met w).

Lemma Done_exact (t : TimeMeasurement) (w0 : World) :
  Metrics (deref (tm_parent t) w0) !! tm_name t = None →
  Done t w0
  = (Ok tt,
     store (tm_parent t)
       {| OpName := OpName (deref (tm_parent t) w0);
          Metrics := <[tm_name t := {| Val := Seconds (now w0 - tm_start t);
                                       Unit := StandardUnitSeconds;
                                       Timestamp := now w0 |}]>
                       (Metrics (deref (tm_parent t) w0)) |} w0).
Proof.
  intros Hn. unfold Done, met_AddDuration, AddDuration.
  now rewrite AddMetric_first.
Qed.

Ltac after_body Hfn :=
  repeat first
    [ rewrite deref_store
    | progress cbn [Metrics OpName tm_parent tm_name tm_start now store events]
    | rewrite lookup_insert_eq
    | rewrite lookup_insert_ne by discriminate
    | rewrite (body_lookups ctx fn met opName w fresh frame _ _ _ Hfn)
        by (simpl; tauto)
    | rewrite lookup_empty ].

(** X18: the wrapper times the body.  When the scope holds a new
    accumulator and the body leaves the entries [Success], [Error],
    [Fault] and [Time] alone, after [InstrumentWithMetrics] the
    accumulator holds [Time] in seconds, the time from the call to the
    end of the body, whether the body returned or panicked; the result
    of the body is handed on, the wrapper itself sends nothing to the
    collaborators, and the metrics the body recorded under its own
    names are as the body left them. *)
Theorem InstrumentWithMetrics_times_the_body (r : Result value) (wf : World) :
  fn ctx (world_at_body met w) = (r, wf) →
  let w' := snd (InstrumentWithMetrics ctx fn w) in
  fst (InstrumentWithMetrics ctx fn w) = r
  ∧ Metrics (deref met w') !! "Time"
    = Some {| Val := Seconds (now wf - now w); Unit := StandardUnitSeconds;
              Timestamp := now wf |}
  ∧ events w' = events wf
  ∧ ∀ name, ¬ In name wrapper_metrics →
      Metrics (deref met w') !! name = Metrics (deref met wf) !! name.
Proof.
  intros Hfn. cbv zeta.
  destruct (counters_set met opName w fresh) as (wa & wb & H1 & H2 & H3 & Hnow & Hm).
  assert (Hget : lift (GetMetricsFromContext ctx) w = (Ok met, w)).
  { unfold lift, GetMetricsFromContext. now rewrite scope. }
  assert (Hother : ∀ name, ¬ In name wrapper_metrics →
            name ≠ "Success" ∧ name ≠ "Error" ∧ name ≠ "Fault" ∧ name ≠ "Time").
  { intros name Hn. repeat split; intros ->; apply Hn; simpl; tauto. }
  unfold InstrumentWithMetrics.
  rewrite (bind_Ok _ _ _ _ _ Hget), (bind_Ok _ _ _ _ _ H1),
    (bind_Ok _ _ _ _ _ H2), (bind_Ok _ _ _ _ _ H3).
  erewrite bind_Ok by reflexivity.
  unfold defer.
  destruct r as [err|p].
  - rewrite (bind_Ok _ _ _ _ _ Hfn).
    erewrite bind_Ok; cycle 1.
    { eapply met_AddCount_again; [after_body Hfn; reflexivity | reflexivity]. }
    assert (Hstep : ∃ name, In name ["Success"; "Error"] ∧
              (if decide (err = VNil) then met_AddCount met "Success" 1
               else met_AddCount met "Error" 1)
              = met_AddCount met name 1).
    { destruct (decide (err = VNil)); [exists "Success" | exists "Error"];
        simpl; auto. }
    destruct Hstep as (cname & Hc & ->).
    erewrite bind_Ok; cycle 1.
    { eapply met_AddCount_again.
      - destruct Hc as [<-|[<-|[]]]; after_body Hfn; reflexivity.
      - reflexivity. }
    unfold mret, M_ret. rewrite Done_exact; cycle 1.
    { destruct Hc as [<-|[<-|[]]]; after_body Hfn; reflexivity. }
    cbn [fst snd]. rewrite Hnow.
    split; [reflexivity|]. split; [after_body Hfn; reflexivity|].
    split; [reflexivity|].
    intros name Hn. destruct (Hother name Hn) as (N1 & N2 & N3 & N4).
    rewrite !deref_store. cbn [Metrics].
    rewrite !lookup_insert_ne; cbn [tm_name]; first
      [ reflexivity | congruence | destruct Hc as [<-|[<-|[]]]; congruence ].
  - rewrite (bind_Panic _ _ _ _ _ Hfn).
    rewrite Done_exact; [|after_body Hfn; reflexivity].
    cbn [fst snd]. rewrite Hnow.
    split; [reflexivity|]. split; [after_body Hfn; reflexivity|].
    split; [reflexivity|].
    intros name Hn. destruct (Hother name Hn) as (N1 & N2 & N3 & N4).
    rewrite !deref_store. cbn [Metrics].
    rewrite !lookup_insert_ne; cbn [tm_name]; first [reflexivity|congruence].
Qed.

End TimeMetric.

Lemma slow_body_leaves_wrapper_metrics d e w :
  leaves_wrapper_metrics 0 (slow_body d e scope_with_metrics) w.
Proof. intros name Hin. reflexivity. Qed.

(** The theorem of X18 at a body that takes two and a half seconds and
    returns an error. *)
Lemma InstrumentWithMetrics_times_the_body_witness :
  let w' := snd (InstrumentWithMetrics scope_with_metrics
                   (slow_body 2500000000 (Errorf "bad error")) fresh_world) in
  fst (InstrumentWithMetrics scope_with_metrics
         (slow_body 2500000000 (Errorf "bad error")) fresh_world)
  = Ok (Errorf "bad error")
  ∧ Metrics (deref 0 w') !! "Time"
    = Some {| Val := 2.5; Unit := StandardUnitSeconds;
              Timestamp := 2500001000 |}
  ∧ events w' = []
  ∧ ∀ name, ¬ In name wrapper_metrics →
      Metrics (deref 0 w') !! name
      = Metrics (deref 0 (world_at_body 0 fresh_world)) !! name.
Proof.
  exact (InstrumentWithMetrics_times_the_body scope_with_metrics
           (slow_body 2500000000 (Errorf "bad error")) 0 "op" fresh_world
           eq_refl eq_refl (slow_body_leaves_wrapper_metrics _ _ _)
           (Ok (Errorf "bad error"))
           (snd (slow_body 2500000000 (Errorf "bad error") scope_with_metrics
                   (world_at_body 0 fresh_world)))
           eq_refl).
Defined.

Section RegistryInUse.

Import registry.

Implicit Types (p : ProcessRegistry) (pc : ProcessContext).

Lemma uint64_succ_pred (n : Z) :
  0 ≤ n < 2 ^ 64 → ((n + 1) mod 2 ^ 64 + (2 ^ 64 - 1)) mod 2 ^ 64 = n.
Proof.
  intros Hn. rewrite Zplus_mod_idemp_l.
  replace (n + 1 + (2 ^ 64 - 1)) with (n + 1 * 2 ^ 64) by lia.
  rewrite Z_mod_plus_full. apply Z.mod_small, Hn.
Qed.

(** X19: a process that is started and ends leaves the registry as it
    was.  For a free name, [TryRun] registers the process and starts
    its goroutine; when the goroutine ends, nothing panics, the name
    is free again, the map and both counters are as before [TryRun]
    (the 64-bit counter is decremented by adding [2^64 - 1]), and the
    channel of the process is closed. *)
Theorem TryRun_finish_round_trip pc proc p :
  processes p !! Name pc = None →
  0 ≤ numRunning p < 2 ^ 64 →
  0 ≤ runningGroups p →
  Done pc ∉ closed p →
  ∃ p1 p2,
    TryRun pc proc p = (true, p1)
    ∧ HasProcess p1 (Name pc) = true
    ∧ finish pc p1 = (Ok tt, p2)
    ∧ HasProcess p2 (Name pc) = false
    ∧ processes p2 = processes p
    ∧ numRunning p2 = numRunning p
    ∧ runningGroups p2 = runningGroups p
    ∧ closed p2 = {[Done pc]} ∪ closed p.
Proof.
  intros Hfree Hn Hg Hc.
  unfold TryRun, prepareRun. rewrite Hfree. cbn [negb].
  do 2 eexists. split; [reflexivity|].
  split; [unfold HasProcess, go; cbn; now rewrite lookup_insert_eq|].
  unfold finish, markDone, go. cbn [runningGroups numRunning processes closed
    rootCtx cancelled next_chan goroutines].
  replace (runningGroups p + 1 - 1 <? 0) with false by (symmetry; apply Z.ltb_ge; lia).
  unfold close. cbn [closed]. rewrite decide_False by assumption.
  split; [reflexivity|].
  cbn [HasProcess processes numRunning runningGroups closed].
  rewrite delete_insert_id by assumption.
  unfold HasProcess. cbn [processes]. rewrite Hfree.
  repeat split; [now apply uint64_succ_pred | lia].
Qed.

(** X20: a process context serves one goroutine only.  Once a
    goroutine of the process has ended, the name is free and [TryRun]
    on the same context succeeds again; but its channel is already
    closed, so the end of the second goroutine panics in
    [close(pc.Done)], after deregistering the name. *)
Theorem ProcessContext_is_single_use pc proc proc' p :
  processes p !! Name pc = None →
  0 ≤ runningGroups p →
  Done pc ∉ closed p →
  let p2 := snd (finish pc (snd (TryRun pc proc p))) in
  ∃ p3,
    TryRun pc proc' p2 = (true, p3)
    ∧ fst (finish pc p3) = Panic (VString "close of closed channel")
    ∧ HasProcess (snd (finish pc p3)) (Name pc) = false.
Proof.
  intros Hfree Hg Hc. cbv zeta.
  assert (Hp2 : processes (snd (finish pc (snd (TryRun pc proc p)))) !! Name pc = None).
  { rewrite finish_deregisters. apply lookup_delete_eq. }
  assert (Hcl : Done pc ∈ closed (snd (finish pc (snd (TryRun pc proc p))))).
  { unfold TryRun, prepareRun. rewrite Hfree. cbn [negb snd].
    unfold finish, markDone, go. cbn [runningGroups numRunning processes closed
      rootCtx cancelled next_chan goroutines].
    destruct (_ <? 0); unfold close; cbn [closed];
      rewrite decide_False by assumption; cbn; set_solver. }
  set (p2 := snd (finish pc (snd (TryRun pc proc p)))) in *.
  unfold TryRun at 1, prepareRun. rewrite Hp2. cbn [negb].
  eexists. split; [reflexivity|].
  split.
  - unfold finish, markDone, go. cbn [runningGroups numRunning processes closed
      rootCtx cancelled next_chan goroutines].
    destruct (_ <? 0); unfold close; cbn [closed];
      rewrite decide_True by assumption; reflexivity.
  - unfold HasProcess. rewrite finish_deregisters. now rewrite lookup_delete_eq.
Qed.

(** X21: the wait channel of a name releases its waiters.  While the
    process runs, [GetWaitChannel] hands out the channel of the
    registered context, which is open and changes nothing; the end of
    the goroutine closes that channel, also when [markDone] panics;
    and for a name that is not registered [GetWaitChannel] hands out a
    new channel that is closed already, leaving the map as it is. *)
Theorem GetWaitChannel_releases pc proc p :
  processes p !! Name pc = None →
  Done pc ∉ closed p →
  let p1 := snd (TryRun pc proc p) in
  let p2 := snd (finish pc p1) in
  GetWaitChannel p1 (Name pc) = (Done pc, p1)
  ∧ (Done pc ∉ closed p1)
  ∧ Done pc ∈ closed p2
  ∧ (∀ name, processes p2 !! name = None →
       let '(ch, p3) := GetWaitChannel p2 name in
       ch = next_chan p2 ∧ ch ∈ closed p3 ∧ processes p3 = processes p2
       ∧ closed p3 = {[ch]} ∪ closed p2).
Proof.
  intros Hfree Hc. cbv zeta.
  unfold TryRun, prepareRun. rewrite Hfree. cbn [negb snd].
  split; [|split; [|split]].
  - unfold GetWaitChannel, go. cbn [processes]. now rewrite lookup_insert_eq.
  - exact Hc.
  - unfold finish, markDone, go. cbn [runningGroups numRunning processes closed
      rootCtx cancelled next_chan goroutines].
    destruct (_ <? 0); unfold close; cbn [closed];
      rewrite decide_False by assumption; cbn; set_solver.
  - intros name Hname. unfold GetWaitChannel. rewrite Hname.
    cbn [closed processes]. repeat split. set_solver.
Qed.

End RegistryInUse.

(** The theorem of X19 at a new registry. *)
Lemma TryRun_finish_round_trip_witness :
  ∃ p1 p2,
    registry.TryRun first_proc1 idle (registry.NewProcessRegistry root) = (true, p1)
    ∧ registry.HasProcess p1 "proc1" = true
    ∧ registry.finish first_proc1 p1 = (Ok tt, p2)
    ∧ registry.HasProcess p2 "proc1" = false
    ∧ registry.processes p2 = ∅
    ∧ registry.numRunning p2 = 0
    ∧ registry.runningGroups p2 = 0
    ∧ registry.closed p2 = {[O]} ∪ ∅.
Proof.
  exact (TryRun_finish_round_trip first_proc1 idle
           (registry.NewProcessRegistry root) eq_refl
           (conj (Z.le_refl 0) eq_refl) (Z.le_refl 0) (not_elem_of_empty _)).
Defined.

(** The theorem of X20 at a new registry. *)
Lemma ProcessContext_is_single_use_witness :
  ∃ p3,
    registry.TryRun first_proc1 idle
      (snd (registry.finish first_proc1
              (snd (registry.TryRun first_proc1 idle
                      (registry.NewProcessRegistry root)))))
    = (true, p3)
    ∧ fst (registry.finish first_proc1 p3)
      = Panic (VString "close of closed channel")
    ∧ registry.HasProcess (snd (registry.finish first_proc1 p3)) "proc1" = false.
Proof.
  exact (ProcessContext_is_single_use first_proc1 idle idle
           (registry.NewProcessRegistry root) eq_refl (Z.le_refl 0)
           (not_elem_of_empty _)).
Defined.

(** The theorem of X21 at a new registry. *)
Lemma GetWaitChannel_releases_witness :
  let p1 := snd (registry.TryRun first_proc1 idle
                   (registry.NewProcessRegistry root)) in
  let p2 := snd (registry.finish first_proc1 p1) in
  registry.GetWaitChannel p1 "proc1" = (O, p1)
  ∧ (O ∉ registry.closed p1)
  ∧ O ∈ registry.closed p2
  ∧ (∀ name, registry.processes p2 !! name = None →
       let '(ch, p3) := registry.GetWaitChannel p2 name in
       ch = registry.next_chan p2 ∧ ch ∈ registry.closed p3
       ∧ registry.processes p3 = registry.processes p2
       ∧ registry.closed p3 = {[ch]} ∪ registry.closed p2).
Proof.
  exact (GetWaitChannel_releases first_proc1 idle
           (registry.NewProcessRegistry root) eq_refl (not_elem_of_empty _)).
Defined.

Section RegistryInvariant.

Import registry.

Implicit Types (p : ProcessRegistry) (pc : ProcessContext).

(** What holds of a registry in use: the counters agree with the map,
    the running goroutines are the registered contexts, and every
    context is registered under its own name. *)
Let in_use (s : ProcessRegistry * list ProcessContext) : Prop :=
  counted (fst s)
  ∧ snd s ≡ₚ (map_to_list (processes (fst s))).*2
  ∧ ∀ name pc, processes (fst s) !! name = Some pc → Name pc = name.

Lemma uint64_succ (n : Z) :
  (n mod 2 ^ 64 + 1) mod 2 ^ 64 = (n + 1) mod 2 ^ 64.
Proof. now rewrite Zplus_mod_idemp_l. Qed.

Lemma uint64_pred (n : Z) :
  (n mod 2 ^ 64 + (2 ^ 64 - 1)) mod 2 ^ 64 = (n - 1) mod 2 ^ 64.
Proof.
  rewrite Zplus_mod_idemp_l.
  replace (n + (2 ^ 64 - 1)) with (n - 1 + 1 * 2 ^ 64) by lia.
  apply Z_mod_plus_full.
Qed.

Lemma in_use_prepareRun p live pc :
  in_use (p, live) →
  in_use (snd (prepareRun pc p),
          if fst (prepareRun pc p) then pc :: live else live).
Proof.
  intros ([Hg Hn] & Hl & Hk). cbn [fst snd] in *. unfold prepareRun.
  destruct (processes p !! Name pc) as [other|] eqn:E.
  - repeat split; assumption.
  - cbn [fst snd]. split; [|split].
    + unfold counted. cbn [fst runningGroups numRunning processes].
      rewrite map_size_insert_None by assumption.
      rewrite Hg, Hn, uint64_succ. split; f_equal; lia.
    + cbn [fst snd processes]. rewrite map_to_list_insert by assumption.
      cbn. now rewrite Hl.
    + cbn [fst processes]. intros name pc'.
      destruct (decide (Name pc = name)) as [<-|Hne].
      * rewrite lookup_insert_eq. now intros [= <-].
      * rewrite lookup_insert_ne by assumption. apply Hk.
Qed.

Lemma in_use_TryRun p live pc proc :
  in_use (p, live) →
  in_use (snd (TryRun pc proc p),
          if fst (TryRun pc proc p) then pc :: live else live).
Proof.
  intros H. apply (in_use_prepareRun p live pc) in H. unfold TryRun.
  destruct (prepareRun pc p) as [[|] p']; exact H.
Qed.

Lemma in_use_registered p live pc :
  in_use (p, live) → pc ∈ live → processes p !! Name pc = Some pc.
Proof.
  intros (_ & Hl & Hk) Hin. cbn [fst snd] in *.
  rewrite Hl in Hin. apply list_elem_of_fmap in Hin as ([name pc'] & -> & Hin).
  apply elem_of_map_to_list in Hin. cbn. now rewrite (Hk _ _ Hin).
Qed.

Lemma in_use_markDone p live1 live2 pc :
  in_use (p, (live1 ++ pc :: live2)%list) →
  fst (markDone (Name pc) p) = Ok tt
  ∧ in_use (snd (markDone (Name pc) p), (live1 ++ live2)%list).
Proof.
  intros H.
  assert (Hreg : processes p !! Name pc = Some pc).
  { apply (in_use_registered _ _ _ H). apply elem_of_app. right. left. }
  destruct H as ([Hg Hn] & Hl & Hk). cbn [fst snd] in *.
  assert (Hpos : (0 < size (processes p))%nat).
  { destruct (size (processes p)) eqn:Es; [|lia].
    apply map_size_empty_inv in Es. rewrite Es in Hreg.
    now rewrite lookup_empty in Hreg. }
  unfold markDone. cbn [runningGroups].
  replace (runningGroups p - 1 <? 0) with false by (symmetry; apply Z.ltb_ge; lia).
  cbn [fst snd]. split; [reflexivity|]. split; [|split]; cbn [fst snd].
  - unfold counted. cbn [fst runningGroups numRunning processes].
    rewrite map_size_delete_Some by (rewrite Hreg; eauto).
    rewrite Hg, Hn, uint64_pred. split; f_equal; lia.
  - cbn [processes].
    apply (Permutation_cons_inv (a := pc)).
    rewrite Permutation_middle, Hl.
    rewrite <- (map_to_list_delete (processes p) (Name pc) pc Hreg).
    reflexivity.
  - cbn [processes]. intros name pc' Hd.
    apply lookup_delete_Some in Hd as [_ Hd]. now apply Hk.
Qed.

Lemma in_use_close p live ch :
  in_use (p, live) → in_use (snd (close ch p), live).
Proof. intros H. unfold close. destruct (decide _); exact H. Qed.

Lemma in_use_step s s' : registry_step s s' → in_use s → in_use s'.
Proof.
  intros Hstep H. destruct Hstep.
  - exact H.
  - now apply in_use_TryRun.
  - apply (in_use_TryRun p live pc proc) in H. unfold Run.
    destruct (TryRun pc proc p) as [[|] p']; exact H.
  - exact H.
  - unfold GetWaitChannel. destruct (processes p !! name); exact H.
  - apply in_use_markDone in H as [_ H]. unfold finish.
    destruct (markDone (Name pc) p) as [r p']. cbn [snd] in H.
    apply (in_use_close _ _ (Done pc)) in H.
    destruct (close (Done pc) p') as [r' p'']. exact H.
Qed.

(** X22: the counters of the registry agree with its map.  From a new
    registry, through any sequence of [CreateProcessContext], [TryRun],
    [Run], the cancellation, [GetWaitChannel] and ends of running
    goroutines, the wait group counts the registered processes and so
    does [numRunning]; the running goroutines are the registered
    contexts; and [markDone] at the end of a running goroutine never
    drives the wait group below zero. *)
Theorem registry_counters_agree (parentCtx : Context)
    (s : ProcessRegistry * list ProcessContext) :
  rtc registry_step (NewProcessRegistry parentCtx, []) s →
  counted (fst s)
  ∧ (∀ pc, pc ∈ snd s ↔ processes (fst s) !! Name pc = Some pc)
  ∧ ∀ pc, pc ∈ snd s → fst (markDone (Name pc) (fst s)) = Ok tt.
Proof.
  intros Hr.
  assert (H : in_use s).
  { apply (rtc_ind_r (R := registry_step) in_use
             (NewProcessRegistry parentCtx, []));
      [|intros y z _ Hs IH; eapply in_use_step; eassumption|exact Hr].
    split; [|split]; cbn.
    - split; reflexivity.
    - now rewrite map_to_list_empty.
    - intros name pc. now rewrite lookup_empty. }
  destruct s as [p live]. cbn [fst snd].
  split; [apply H|]. split.
  - intros pc. split; [apply (in_use_registered _ _ _ H)|].
    intros Hreg. destruct H as (_ & Hl & _). cbn [fst snd] in Hl.
    rewrite Hl. apply list_elem_of_fmap. exists (Name pc, pc).
    split; [reflexivity|]. now apply elem_of_map_to_list.
  - intros pc Hin. apply list_elem_of_split in Hin as (l1 & l2 & ->).
    now apply in_use_markDone in H as [H _].
Qed.

End RegistryInvariant.

Lemma proc1_running_reached :
  rtc registry_step (registry.NewProcessRegistry root, [])
    (proc1_running, [first_proc1]).
Proof.
  eapply rtc_l; [apply (step_CreateProcessContext _ _ "proc1")|].
  eapply rtc_l; [apply (step_Run _ _ first_proc1 idle)|].
  apply rtc_once. apply (step_CreateProcessContext _ _ "proc1").
Defined.

(** The theorem of X22 at the registry in which [proc1] runs. *)
Lemma registry_counters_agree_witness :
  counted proc1_running
  ∧ (∀ pc, pc ∈ [first_proc1]
           ↔ registry.processes proc1_running !! registry.Name pc = Some pc)
  ∧ ∀ pc, pc ∈ [first_proc1] →
      fst (registry.markDone (registry.Name pc) proc1_running) = Ok tt.
Proof.
  exact (registry_counters_agree root (proc1_running, [first_proc1])
           proc1_running_reached).
Defined.

Section RunningNames.

Import registry.

(** X23: [LogRunning] lists every registered name once, in increasing
    byte order, separated by a comma and a space; the order in which
    the map hands out its keys makes no difference: sorting any
    enumeration of the registered names gives the same text. *)
Theorem LogRunning_sorted_names (p : ProcessRegistry) :
  ∃ names,
    LogRunning p = strings.Join names ", "
    ∧ Sorted String.le names
    ∧ NoDup names
    ∧ (∀ name, name ∈ names ↔ HasProcess p name = true)
    ∧ ∀ keys, NoDup keys →
        (∀ name, name ∈ keys ↔ HasProcess p name = true) →
        strings.Join (merge_sort String.le keys) ", " = LogRunning p.
Proof.
  set (elems := (map_to_list (processes p)).*1).
  assert (Hnd : NoDup elems) by apply NoDup_fst_map_to_list.
  assert (Hin : ∀ name, name ∈ elems ↔ HasProcess p name = true).
  { intros name. unfold elems, HasProcess. rewrite list_elem_of_fmap. split.
    - intros ([n pc] & -> & Hm). apply elem_of_map_to_list in Hm.
      cbn. now rewrite Hm.
    - destruct (processes p !! name) as [pc|] eqn:E; [|discriminate].
      intros _. exists (name, pc). split; [reflexivity|].
      now apply elem_of_map_to_list. }
  exists (merge_sort String.le elems).
  split; [reflexivity|].
  split; [apply Sorted_merge_sort, _|].
  split; [now rewrite merge_sort_Permutation|].
  split; [intros name; now rewrite merge_sort_Permutation|].
  intros keys Hk Hkeys. unfold LogRunning. fold elems. f_equal.
  apply (Sorted_unique String.le); [apply _..| | |].
  - apply Sorted_merge_sort, _.
  - apply Sorted_merge_sort, _.
  - rewrite !merge_sort_Permutation. apply NoDup_Permutation; [assumption..|].
    intros name. now rewrite Hkeys, Hin.
Qed.

End RunningNames.

Section GoroutineBody.

Import registry.

Context `{Utils}.

(** X24: what a goroutine of the registry runs.  The process runs
    under [RunInstrumented] in the root scope of the registry, under
    its own name.  When it returns an error, the error is logged once,
    with the logger of the scope of the body, after everything the
    process did and before the metrics are copied and the span is
    finished with that error; when it returns nil, nothing is logged.
    In both cases the goroutine goes on to its end. *)
Theorem body_logs_the_error (p : ProcessRegistry) (g : Goroutine) (w : World)
    (l : Logger) :
  loggerKey (rootCtx p) = Some l →
  ∃ span c w1 lg,
    CL c = Ok lg
    ∧ lg = With (Named l (Name (g_pc g)))
             [("dd.trace_id", Itoa (TraceID span));
              ("dd.span_id", Itoa (SpanID span))]
    ∧ ∀ err wf, g_proc g c w1 = (Ok err, wf) →
        ∃ copied w',
          body p g w = (Ok err, w')
          ∧ events w'
            = (events wf
               ++ (if decide (err = VNil) then []
                   else [LogError lg "Async process returned an error" err])
               ++ copied ++ [Finish span err])%list.
Proof.
  intros Hl.
  destruct (RunInstrumented_scope (rootCtx p) (Name (g_pc g)) w l Hl)
    as (span & c & met & w1 & Hrun & _ & Hlog & _).
  exists span, c, w1. eexists. split; [exact Hlog|]. split; [reflexivity|].
  intros err wf Hfn. unfold body. rewrite Hrun.
  set (lg := With _ _) in *.
  set (logged := if decide (err = VNil) then []
                 else [LogError lg "Async process returned an error" err]).
  assert (Hwrapped : ∃ wl,
            (err0 ← g_proc g c;
             (if decide (err0 ≠ VNil)
              then l0 ← lift (CL c);
                   emit [LogError l0 "Async process returned an error" err0]
              else mret tt);;
             mret err0) w1 = (Ok err, wl)
            ∧ events wl = (events wf ++ logged)%list).
  { rewrite (bind_Ok _ _ _ _ _ Hfn). unfold logged.
    destruct (decide (err = VNil)) as [->|Hne].
    - rewrite decide_False by (intros Hn; now apply Hn).
      eexists. split; [reflexivity|]. now rewrite app_nil_r.
    - rewrite decide_True by assumption. rewrite Hlog.
      eexists. split; reflexivity. }
  destruct Hwrapped as (wl & Hw & Hel).
  destruct (body_with_defers met span (GetStatsdFromContext (rootCtx p))
              (GetClientTypeFromContext (rootCtx p)) _ w1 _ _ Hw)
    as (copied & w2 & Hb & Hev & _).
  unfold recovering. rewrite Hb. exists copied. eexists. split; [reflexivity|].
  cbn [events]. rewrite Hev, Hel. now rewrite <- !app_assoc.
Qed.

End GoroutineBody.

(** The theorem of X24 at a registry over the root scope. *)
Lemma body_logs_the_error_witness :
  let g := {| registry.g_pc := first_proc1; registry.g_period := None;
              registry.g_proc := failing_body (Errorf "bad error") |} in
  ∃ span c w1 lg,
    CL c = Ok lg
    ∧ lg = With (Named {| logger_name := ""; logger_fields := [] |} "proc1")
             [("dd.trace_id", Itoa (TraceID span));
              ("dd.span_id", Itoa (SpanID span))]
    ∧ ∀ err wf, failing_body (Errorf "bad error") c w1 = (Ok err, wf) →
        ∃ copied w',
          @registry.body plain_names (registry.NewProcessRegistry root) g
            fresh_world = (Ok err, w')
          ∧ events w'
            = (events wf
               ++ (if decide (err = VNil) then []
                   else [LogError lg "Async process returned an error" err])
               ++ copied ++ [Finish span err])%list.
Proof.
  exact (@body_logs_the_error plain_names (registry.NewProcessRegistry root)
           {| registry.g_pc := first_proc1; registry.g_period := None;
              registry.g_proc := failing_body (Errorf "bad error") |}
           fresh_world {| logger_name := ""; logger_fields := [] |} eq_refl).
Defined.

Section MultiValueContextKeys.

Import multi.




End MultiValueContextKeys.

